(** * Pairwise affinity matrix: the three etude variants over a tensor store

    The notebooks compute, for a point array [u] of shape N x 2, the matrix
    [A(i,j) = exp(-0.25 * dist(u_i, u_j))] in three ways: [naive] (two nested
    loops and [torch.dist]), [one_dim_vectorized] (one loop over rows) and
    [fully_vectorized] (broadcasting).  The variants are embedded here as
    programs of a state-and-error monad over a store of flat storages;
    tensors are strided views into that store, so that views ([reshape],
    [permute], [u[i]]) alias their base tensor and the in-place operations
    ([pow_], [sqrt_], [mul_], [exp_]) really write into a storage.

    The tensor library itself is not part of the notebooks.  Its operations
    are modelled after their documented behaviour:
    - indexing checks the index against the shape and raises IndexError;
    - binary operations and assignments broadcast, aligned at the last
      dimension, and raise RuntimeError on incompatible shapes;
    - a fresh tensor is laid out in row-major order, the stride of a
      dimension being the product of the sizes after it, each counted as at
      least 1;
    - every elementwise operation applies one scalar function to each
      element, the same whatever the shape of the tensor (one precision, one
      backend); [pow_(2)] is [x * x];
    - [torch.dist(a, b)] is the 2-norm of [a - b], computed by one call into
      the library.  How that call rounds (square by square, with a fused
      multiply-add, in a wider accumulator) is not fixed by the notebooks, so
      the norm of a vector stays a parameter ([fnorm]), like the exponential;
    - [sum(dim)] adds the elements of a row to 0 one after the other.  For
      the two squares of a point with two coordinates every order of
      addition gives this float; for longer rows the library may add in
      another order, so the entries of the vectorized variants are only
      stated for points with two coordinates.
    There is one scalar type: the array [u] has the dtype that [torch.zeros]
    gives the result, the default one.
    What does not depend on numbers is proved for any scalar arithmetic;
    the numeric claims are proved for binary32, the default dtype, with the
    IEEE 754 operations of [SpecFloat] and with the exponential and the norm
    of the library as parameters. *)

From Stdlib Require Import ZArith Lia List Bool.
From Stdlib Require Import Floats.SpecFloat.
From stdpp Require Import base tactics list.

(** ** Scalars

    The element type and its arithmetic are those of the tensor library
    (dtype and backend); the programs only use the operations below. *)

Class Scalar (F : Type) := {
  fzero : F;                 (* 0.0: fill value of torch.zeros, start of a sum *)
  fadd : F -> F -> F;
  fsub : F -> F -> F;
  fmul : F -> F -> F;
  fsqrt : F -> F;
  fexp : F -> F;
  neg_quarter : F            (* the literal -0.25; [-0.25 * d] and
                                [d.mul_(-0.25)] are both [fmul d neg_quarter] *)
}.

(** The 2-norm of a vector, as the library computes it for [torch.dist]. *)
Class Norm (F : Type) := {
  fnorm : list F -> F
}.

(** [x.pow(2)]. *)
Definition fsquare `{Scalar F} (x : F) : F := fmul x x.

(** A reduction by addition, as done by [sum]. *)
Definition fsum `{Scalar F} (l : list F) : F := fold_left fadd l fzero.

(** ** Errors and the monad *)

Inductive error := IndexError | RuntimeError.

Inductive res (A : Type) :=
| Ok (a : A)
| Raise (e : error).
Arguments Ok {A} a.
Arguments Raise {A} e.

(** ** Tensors: strided views of a storage *)

Record tensor := mkT {
  t_sid : nat;               (* which storage *)
  t_off : nat;               (* storage offset *)
  t_shape : list nat;
  t_strides : list nat
}.

Definition numel (shape : list nat) : nat := fold_right Nat.mul 1 shape.

(** The step between two elements along a dimension that is followed by
    the dimensions [shape]: a dimension of size 0 counts as one of size 1. *)
Definition stride_of (shape : list nat) : nat :=
  fold_right (fun n acc => Nat.max n 1 * acc) 1 shape.

(** Row-major strides of a freshly allocated tensor. *)
Fixpoint contiguous_strides (shape : list nat) : list nat :=
  match shape with
  | [] => []
  | _ :: s => stride_of s :: contiguous_strides s
  end.

Fixpoint dot (idx strides : list nat) : nat :=
  match idx, strides with
  | i :: idx', s :: strides' => i * s + dot idx' strides'
  | _, _ => 0
  end.

(** Storage position of the element at multi-index [idx]. *)
Definition addr (t : tensor) (idx : list nat) : nat :=
  t_off t + dot idx (t_strides t).

(** The multi-index of the [p]-th element in row-major order. *)
Fixpoint unravel (shape : list nat) (p : nat) : list nat :=
  match shape with
  | [] => []
  | _ :: s => p / numel s :: unravel s (p mod numel s)
  end.

(** All multi-indices of a shape, in row-major order. *)
Definition indices (shape : list nat) : list (list nat) :=
  unravel shape <$> seq 0 (numel shape).

(** [idx] is a valid multi-index for [shape]. *)
Definition in_bounds (idx shape : list nat) : Prop := Forall2 lt idx shape.

(** Broadcasting of two shapes, aligned at the last dimension (both
    arguments reversed).  [None] when the shapes are incompatible. *)
Fixpoint broadcast_rev (a b : list nat) : option (list nat) :=
  match a, b with
  | [], _ => Some b
  | _, [] => Some a
  | x :: a', y :: b' =>
      match broadcast_rev a' b' with
      | None => None
      | Some r =>
          if x =? y then Some (x :: r)
          else if x =? 1 then Some (y :: r)
          else if y =? 1 then Some (x :: r)
          else None
      end
  end.

Definition broadcast_shapes (a b : list nat) : option (list nat) :=
  option_map (@rev nat) (broadcast_rev (rev a) (rev b)).

(** Strides of a view expanded to [target] (all lists reversed): a
    dimension of size 1 that is stretched, and every new leading dimension,
    gets stride 0. *)
Fixpoint expand_rev (shape strides target : list nat) : option (list nat) :=
  match target with
  | [] => match shape with [] => Some [] | _ :: _ => None end
  | b :: target' =>
      match shape, strides with
      | [], _ => option_map (cons 0) (expand_rev [] [] target')
      | s :: shape', st :: strides' =>
          match expand_rev shape' strides' target' with
          | None => None
          | Some r =>
              if s =? b then Some (st :: r)
              else if s =? 1 then Some (0 :: r)
              else None
          end
      | _ :: _, [] => None
      end
  end.

Definition expand (t : tensor) (target : list nat) : option tensor :=
  option_map (fun st => mkT (t_sid t) (t_off t) target (rev st))
    (expand_rev (rev (t_shape t)) (rev (t_strides t)) (rev target)).

(** [perm] is a permutation of [0 .. n-1]. *)
Definition is_perm (perm : list nat) (n : nat) : bool :=
  (length perm =? n) && forallb (fun k => existsb (Nat.eqb k) perm) (seq 0 n).

#[global] Instance scalar_inhabited `{Scalar F} : Inhabited F := populate fzero.

(** The store: a list of flat storages, addressed by position. *)
Abbreviation storage F := (list F) (only parsing).
Abbreviation heap F := (list (storage F)) (only parsing).

Section Store.
Context {F : Type} `{Scalar F} `{Norm F}.

(** Programs: state (the store) and errors. *)
Definition M (A : Type) := heap F -> res (A * heap F).

Definition ret {A} (a : A) : M A := fun h => Ok (a, h).
Definition raise {A} (e : error) : M A := fun _ => Raise e.
Definition bind {A B} (m : M A) (k : A -> M B) : M B :=
  fun h => match m h with
           | Ok (a, h') => k a h'
           | Raise e => Raise e
           end.

Definition load (h : heap F) (t : tensor) (idx : list nat) : F :=
  (h !!! t_sid t) !!! addr t idx.

Definition store (h : heap F) (t : tensor) (idx : list nat) (v : F) : heap F :=
  <[t_sid t := <[addr t idx := v]> (h !!! t_sid t)]> h.

(** The elements of a tensor in row-major order. *)
Definition to_list (h : heap F) (t : tensor) : list F :=
  load h t <$> indices (t_shape t).

(** A fresh contiguous tensor holding [data]. *)
Definition alloc (shape : list nat) (data : list F) : M tensor :=
  fun h => Ok (mkT (length h) 0 shape (contiguous_strides shape), h ++ [data]).

(** *** Views: no storage is touched *)

(** [u.shape[0]] *)
Definition shape0 (t : tensor) : M nat :=
  match t_shape t with
  | n :: _ => ret n
  | [] => raise IndexError
  end.

(** [t[i]]: the [i]-th slice along the first dimension, a view. *)
Definition select (t : tensor) (i : nat) : M tensor :=
  match t_shape t, t_strides t with
  | n :: shape', st :: strides' =>
      if i <? n
      then ret (mkT (t_sid t) (t_off t + i * st) shape' strides')
      else raise IndexError
  | _, _ => raise IndexError
  end.

(** [t.reshape(1, *t.shape)]: one more leading dimension of size 1.  This
    is always expressible as a view, whatever the strides of [t]. *)
Definition reshape_lead1 (t : tensor) : M tensor :=
  ret (mkT (t_sid t) (t_off t) (1 :: t_shape t)
         (numel (t_shape t) :: t_strides t)).

(** [t.permute(perm)] *)
Definition permute (perm : list nat) (t : tensor) : M tensor :=
  if is_perm perm (length (t_shape t))
  then ret (mkT (t_sid t) (t_off t)
              (map (fun k => nth k (t_shape t) 0) perm)
              (map (fun k => nth k (t_strides t) 0) perm))
  else raise RuntimeError.

(** *** Operations that allocate *)

(** [torch.zeros(shape)], in the default dtype: the one scalar type here. *)
Definition zeros (shape : list nat) : M tensor :=
  alloc shape (replicate (numel shape) fzero).

(** Shape and elements (row-major) of the broadcast difference [a - b]. *)
Definition broadcast_sub (h : heap F) (a b : tensor)
  : option (list nat * list F) :=
  match broadcast_shapes (t_shape a) (t_shape b) with
  | None => None
  | Some bs =>
      match expand a bs, expand b bs with
      | Some a', Some b' =>
          Some (bs, (fun idx => fsub (load h a' idx) (load h b' idx))
                      <$> indices bs)
      | _, _ => None
      end
  end.

(** [a - b] *)
Definition sub (a b : tensor) : M tensor :=
  fun h => match broadcast_sub h a b with
           | Some (bs, data) => alloc bs data h
           | None => Raise RuntimeError
           end.

(** [t.sum(dim=d)] *)
Definition sum_dim (d : nat) (t : tensor) : M tensor :=
  fun h =>
    if d <? length (t_shape t) then
      let out := delete d (t_shape t) in
      alloc out
        ((fun idx =>
            fsum (map (fun k => load h t (take d idx ++ k :: drop d idx))
                    (seq 0 (nth d (t_shape t) 0))))
           <$> indices out) h
    else Raise IndexError.

(** [torch.dist(a, b)]: the library's 2-norm of the elements of [a - b], a
    fresh 0-dimensional tensor, kept here as its value. *)
Definition dist (a b : tensor) : M F :=
  fun h => match broadcast_sub h a b with
           | Some (_, data) => Ok (fnorm data, h)
           | None => Raise RuntimeError
           end.

(** *** Operations that write into an existing storage *)

(** An elementwise in-place operation; returns its argument. *)
Definition map_ (f : F -> F) (t : tensor) : M tensor :=
  fun h => Ok (t, fold_left (fun h' idx => store h' t idx (f (load h' t idx)))
                    (indices (t_shape t)) h).

Definition pow2_ : tensor -> M tensor := map_ fsquare.
Definition sqrt_ : tensor -> M tensor := map_ fsqrt.
Definition mul_ (c : F) : tensor -> M tensor := map_ (fun x => fmul x c).
Definition exp_ : tensor -> M tensor := map_ fexp.

(** [dst.copy_(src)]: [src] is broadcast to the shape of [dst]. *)
Definition copy_ (dst src : tensor) : M unit :=
  fun h => match expand src (t_shape dst) with
           | Some src' =>
               Ok (tt, fold_left (fun h' idx => store h' dst idx (load h src' idx))
                         (indices (t_shape dst)) h)
           | None => Raise RuntimeError
           end.

(** [dst.fill_(v)] *)
Definition fill_ (dst : tensor) (v : F) : M unit :=
  fun h => Ok (tt, fold_left (fun h' idx => store h' dst idx v)
                     (indices (t_shape dst)) h).

(** [t[i, j] = v] for a scalar [v] *)
Definition setitem2 (t : tensor) (i j : nat) (v : F) : M unit :=
  bind (select t i) (fun r => bind (select r j) (fun c => fill_ c v)).

(** [t[i, :] = src] *)
Definition setrow (t : tensor) (i : nat) (src : tensor) : M unit :=
  bind (select t i) (fun r =>
    match t_shape r with
    | _ :: _ => copy_ r src
    | [] => raise IndexError
    end).

(** [for i in range(n): body(i)] *)
Fixpoint for_each (l : list nat) (body : nat -> M unit) : M unit :=
  match l with
  | [] => ret tt
  | i :: l' => bind (body i) (fun _ => for_each l' body)
  end.

Definition for_range (n : nat) (body : nat -> M unit) : M unit :=
  for_each (seq 0 n) body.
End Store.

Notation "'let*' x ':=' m 'in' k" := (bind m (fun x => k))
  (at level 10, x name, m at level 200, k at level 200).

(** ** The programs *)

(** The first notebook: every variant takes the size [N] from its caller. *)
Module Etude1.
Section Programs.
Context {F : Type} `{Scalar F} `{Norm F}.

Definition naive (u : tensor) (N : nat) : M tensor :=
  let* result := zeros [N; N] in
  let* _ := for_range N (fun i =>
    for_range N (fun j =>
      let* ui := select u i in
      let* uj := select u j in
      let* d := dist ui uj in
      setitem2 result i j (fexp (fmul d neg_quarter)))) in
  ret result.

Definition fully_vectorized (u : tensor) (N : nat) : M tensor :=
  let* u_ := reshape_lead1 u in
  let* p := permute [1; 0; 2] u_ in
  let* A_ := sub p u_ in
  let* a1 := pow2_ A_ in
  let* a2 := sum_dim 2 a1 in
  let* a3 := sqrt_ a2 in
  let* a4 := mul_ neg_quarter a3 in
  exp_ a4.

Definition one_dim_vectorized (u : tensor) (N : nat) : M tensor :=
  let* result := zeros [N; N] in
  let* _ := for_range N (fun i =>
    let* ui := select u i in
    let* du := sub ui u in
    let* d1 := pow2_ du in
    let* d2 := sum_dim 1 d1 in
    let* d3 := sqrt_ d2 in
    let* d4 := mul_ neg_quarter d3 in
    let* d5 := exp_ d4 in
    setrow result i d5) in
  ret result.
End Programs.
End Etude1.

(** The second notebook: [N = u.shape[0]]. *)
Section Notebook.
Context {F : Type} `{Scalar F} `{Norm F}.

Definition naive (u : tensor) : M tensor :=
  let* N := shape0 u in
  let* result := zeros [N; N] in
  let* _ := for_range N (fun i =>
    for_range N (fun j =>
      let* ui := select u i in
      let* uj := select u j in
      let* d := dist ui uj in
      setitem2 result i j (fexp (fmul d neg_quarter)))) in
  ret result.

Definition fully_vectorized (u : tensor) : M tensor :=
  let* u_ := reshape_lead1 u in
  let* p := permute [1; 0; 2] u_ in
  let* A_ := sub p u_ in
  let* a1 := pow2_ A_ in
  let* a2 := sum_dim 2 a1 in
  let* a3 := sqrt_ a2 in
  let* a4 := mul_ neg_quarter a3 in
  exp_ a4.

Definition one_dim_vectorized (u : tensor) : M tensor :=
  let* N := shape0 u in
  let* result := zeros [N; N] in
  let* _ := for_range N (fun i =>
    let* ui := select u i in
    let* du := sub ui u in
    let* d1 := pow2_ du in
    let* d2 := sum_dim 1 d1 in
    let* d3 := sqrt_ d2 in
    let* d4 := mul_ neg_quarter d3 in
    let* d5 := exp_ d4 in
    setrow result i d5) in
  ret result.
End Notebook.

(** ** The entries

    What the vectorized variants store at position (i, j), for points with
    [D] coordinates: the subtract, square, sum, square root, scale,
    exponential pipeline on the coordinates of [u] read in store [h]. *)

Definition affinity `{Scalar F} (h : heap F) (u : tensor) (D i j : nat) : F :=
  fexp (fmul
          (fsqrt (fsum (map (fun k => fsquare (fsub (load h u [i; k])
                                                      (load h u [j; k])))
                          (seq 0 D))))
          neg_quarter).

(** The coordinate differences of points [i] and [j]. *)
Definition differences `{Scalar F} (h : heap F) (u : tensor) (D i j : nat)
  : list F :=
  map (fun k => fsub (load h u [i; k]) (load h u [j; k])) (seq 0 D).

(** What [naive] stores at position (i, j): the library's norm of the
    differences, scaled, and the exponential. *)
Definition dist_affinity `{Scalar F} `{Norm F} (h : heap F) (u : tensor)
    (D i j : nat) : F :=
  fexp (fmul (fnorm (differences h u D i j)) neg_quarter).

(** The square, sum, square root pipeline of the vectorized variants,
    applied to a vector. *)
Definition pipeline_norm `{Scalar F} (l : list F) : F :=
  fsqrt (fsum (map fsquare l)).

(** A tensor that lives in store [h]. *)
Definition wf_tensor {F : Type} (h : heap F) (t : tensor) : Prop :=
  t_sid t < length h /\ length (t_strides t) = length (t_shape t).

(** ** binary32 arithmetic

    [torch.randn] and [torch.zeros] produce single precision tensors by
    default.  Addition, subtraction, multiplication and square root are the
    correctly rounded IEEE 754 operations; the exponential is a library
    function and stays a parameter of the instance, and so does the norm.
    [SpecFloat] has a single NaN: sign and payload of a NaN are not
    modelled. *)

Module F32.
Definition prec : Z := 24.
Definition emax : Z := 128.

Definition zero : spec_float := S754_zero false.
Definition one : spec_float := S754_finite false 8388608 (-23).
Definition four : spec_float := S754_finite false 8388608 (-21).
Definition minus_one : spec_float := S754_finite true 8388608 (-23).
Definition minus_quarter : spec_float := S754_finite true 8388608 (-25).
Definition nan : spec_float := S754_nan.

Definition add := SFadd prec emax.
Definition sub := SFsub prec emax.
Definition mul := SFmul prec emax.
Definition sqrt := SFsqrt prec emax.

Definition ops (exp : spec_float -> spec_float) : Scalar spec_float :=
  {| fzero := zero; fadd := add; fsub := sub; fmul := mul;
     fsqrt := sqrt; fexp := exp; neg_quarter := minus_quarter |}.

(** Neither infinite nor NaN. *)
Definition is_finite (x : spec_float) : bool :=
  match x with
  | S754_zero _ | S754_finite _ _ _ => true
  | S754_infinity _ | S754_nan => false
  end.

(** Zero of either sign, negative, or minus infinity. *)
Definition is_nonpos (x : spec_float) : bool :=
  match x with
  | S754_zero _ | S754_finite true _ _ | S754_infinity true => true
  | _ => false
  end.

(** Zero of either sign, positive, or plus infinity. *)
Definition is_nonneg (x : spec_float) : bool :=
  match x with
  | S754_zero _ | S754_finite false _ _ | S754_infinity false => true
  | _ => false
  end.

(** [0 < x <= 1] and [0 <= x <= 1], by IEEE comparison. *)
Definition in_unit (x : spec_float) : bool := SFltb zero x && SFleb x one.
Definition in_unit_closed (x : spec_float) : bool := SFleb zero x && SFleb x one.

(** What is assumed of the library's exponential: the special values fixed
    by IEEE 754 and C, and that it maps (-oo, 0] into [0, 1]. *)
Record exp_ok (exp : spec_float -> spec_float) : Prop := {
  exp_zero : forall s, exp (S754_zero s) = one;
  exp_neg_inf : exp (S754_infinity true) = zero;
  exp_nonpos : forall x, is_nonpos x = true -> in_unit_closed (exp x) = true
}.

(** *** A reference exponential

    Argument reduction by ln 2 and a Taylor polynomial, in fixed point with
    60 fractional bits, rounded to nearest by [binary_normalize]; the result
    for a negative argument is kept within [0, 1].  It stands for the
    library's exponential wherever a concrete one is needed. *)
Definition ln2_60 : Z := 799144290325165979.
Definition one_60 : Z := 1152921504606846976.

Fixpoint taylor_60 (n : nat) (deg : Z) (r : Z) : Z :=
  match n with
  | O => one_60
  | S n' => (one_60 + r * taylor_60 n' (deg + 1) r / (deg * one_60))%Z
  end.

Definition clamp_unit (x : spec_float) : spec_float :=
  if SFleb x one then (if SFleb zero x then x else zero) else one.

Definition exp32 (x : spec_float) : spec_float :=
  match x with
  | S754_nan => S754_nan
  | S754_infinity false => S754_infinity false
  | S754_infinity true => zero
  | S754_zero _ => one
  | S754_finite s m e =>
      if (8 <=? e)%Z then (if s then zero else S754_infinity false)
      else
        let X := cond_Zopp s (Z.shiftl (Zpos m) (e + 60)) in
        let k := (X / ln2_60)%Z in
        let r := (X - k * ln2_60)%Z in
        let y := binary_normalize prec emax (taylor_60 24 1 r) (k - 60) false in
        if s then clamp_unit y else y
  end.

(** *** The norm of the library

    What is assumed of it where a claim needs it.  Each assumption follows
    from the norm being some rounding of the square root of the sum of the
    squares: the norm of zeros is zero, the norm is not negative, a NaN
    element gives NaN, and the signs of the elements do not matter. *)
Record norm_ok (norm : list spec_float -> spec_float) : Prop := {
  norm_zero : norm [zero; zero] = zero;
  norm_nonneg : forall l, ~ In S754_nan l -> is_nonneg (norm l) = true;
  norm_nan : forall l, In S754_nan l -> norm l = S754_nan;
  norm_abs : forall l, norm (map SFabs l) = norm l
}.

(** *** A reference norm

    The sum of the squares is formed exactly and rounded once, and the
    square root is taken of that; a NaN element gives NaN and, failing
    that, an infinite one gives +oo.  It stands for the library's norm
    wherever a concrete one is needed.  The squares are integers in units
    of 2^-298, the square of the smallest binary32 number. *)
Definition is_nan (x : spec_float) : bool :=
  match x with
  | S754_nan => true
  | _ => false
  end.

Definition is_inf (x : spec_float) : bool :=
  match x with
  | S754_infinity _ => true
  | _ => false
  end.

Definition square_at (x : spec_float) : Z :=
  match x with
  | S754_finite _ m e => Z.shiftl (Zpos (m * m)) (2 * e + 298)
  | _ => 0%Z
  end.

Definition norm_once (l : list spec_float) : spec_float :=
  if existsb is_nan l then S754_nan
  else if existsb is_inf l then S754_infinity false
  else sqrt (binary_normalize prec emax
               (fold_right Z.add 0%Z (map square_at l)) (-298) false).

(** Coordinates (i, 0) and (i, 1) of every point i < N are finite. *)
Definition finite_points (exp : spec_float -> spec_float)
    (h : heap spec_float) (u : tensor) (N : nat) : Prop :=
  forall i k, i < N -> k < 2 ->
    is_finite (@load _ (ops exp) h u [i; k]) = true.

(** *** The entry as the specification words it *)

Definition point : Type := spec_float * spec_float.

(** Square root of the sum of squared coordinate differences. *)
Definition euclidean_distance (p q : point) : spec_float :=
  sqrt (add (mul (sub (fst p) (fst q)) (sub (fst p) (fst q)))
            (mul (sub (snd p) (snd q)) (sub (snd p) (snd q)))).

(** exp(-0.25 x distance) *)
Definition spec_entry (exp : spec_float -> spec_float) (p q : point)
  : spec_float :=
  exp (mul minus_quarter (euclidean_distance p q)).

(** *** The entry with the distance of the library

    [torch.dist] of two points is the library's norm of their two
    coordinate differences. *)
Definition library_distance (norm : list spec_float -> spec_float)
    (p q : point) : spec_float :=
  norm [sub (fst p) (fst q); sub (snd p) (snd q)].

Definition dist_entry (exp : spec_float -> spec_float)
    (norm : list spec_float -> spec_float) (p q : point) : spec_float :=
  exp (mul minus_quarter (library_distance norm p q)).

Definition point_of (exp : spec_float -> spec_float)
    (h : heap spec_float) (u : tensor) (i : nat) : point :=
  (@load _ (ops exp) h u [i; 0], @load _ (ops exp) h u [i; 1]).
End F32.


(** ** The three variants, and what a call returned *)

Definition variants {F : Type} `{Scalar F} `{Norm F}
  : list (tensor -> @M F tensor) :=
  [naive; one_dim_vectorized; fully_vectorized].

(** Shape of the returned tensor, [None] when the call raised. *)
Definition result_shape {F : Type} (x : res (tensor * heap F))
  : option (list nat) :=
  match x with
  | Ok (r, _) => Some (t_shape r)
  | Raise _ => None
  end.

(** Elements of the returned tensor in row-major order. *)
Definition result_list {F : Type} `{Scalar F} (x : res (tensor * heap F))
  : option (list F) :=
  match x with
  | Ok (r, h) => Some (to_list h r)
  | Raise _ => None
  end.

(** ** Concrete inputs (binary32, reference exponential and norm) *)

Module Examples.
Import F32.

Definition ops32 : Scalar spec_float := F32.ops exp32.
Definition norm32 : Norm spec_float := {| fnorm := norm_once |}.

(** A contiguous array of the given shape in storage 0. *)
Definition array (shape : list nat) : tensor :=
  mkT 0 0 shape (contiguous_strides shape).

(** 2^100: finite, but its square is not. *)
Definition huge : spec_float := S754_finite false 8388608 77.

(** (0,0) and (4,0) *)
Definition two_points : heap spec_float := [[zero; zero; four; zero]].
(** (0,0) and (0,0) *)
Definition coincident : heap spec_float := [[zero; zero; zero; zero]].
(** (0,0) and (2^100,0) *)
Definition far_points : heap spec_float := [[zero; zero; huge; zero]].
(** (0,0) and (1000,0) *)
Definition thousand : spec_float := S754_finite false 16384000 (-14).
Definition distant_points : heap spec_float := [[zero; zero; thousand; zero]].
(** no point at all *)
Definition no_points : heap spec_float := [[]].
(** (NaN,0) *)
Definition nan_point : heap spec_float := [[nan; zero]].
(** (NaN,0) and (0,0) *)
Definition nan_points : heap spec_float := [[nan; zero; zero; zero]].
(** (0,0) and (2.75, 1.000732421875): the sum of the two squares lies
    halfway between two binary32 numbers once the second square is
    rounded. *)
Definition tie_points : heap spec_float :=
  [[zero; zero; S754_finite false 11534336 (-22);
    S754_finite false 8394752 (-23)]].
(** (0,0,0) and (4,0,0) *)
Definition two_points_3d : heap spec_float :=
  [[zero; zero; zero; four; zero; zero]].
End Examples.

(** ** Arrays of any rank

    [naive] only indexes the first dimension; what it computes on an array
    of any rank is stated with the views [u[i]]. *)

(** The view [u[i]], as [select] builds it. *)
Definition row_view (u : tensor) (i : nat) : tensor :=
  mkT (t_sid u) (t_off u + i * hd 0 (t_strides u))
    (tl (t_shape u)) (tl (t_strides u)).

(** exp(-0.25 x the library's norm of [u[i] - u[j]]), over all elements of
    the two slices. *)
Definition slice_affinity `{Scalar F} `{Norm F} (h : heap F) (u : tensor)
    (i j : nat) : F :=
  fexp (fmul
          (fnorm ((fun idx => fsub (load h (row_view u i) idx)
                                   (load h (row_view u j) idx))
                    <$> indices (tl (t_shape u))))
          neg_quarter).

(** ** The benchmark harness

    [bench] draws arrays, runs a function on them and averages the elapsed
    wall-clock times.  The clock and the two random generators are outside
    the program: the k-th reading of [time.time()], the k-th sample of
    [torch.randn] and the k-th draw of [np.random.choice] are given by an
    oracle, and the world counts how many of each were consumed.  Time stamps
    are Python floats; their arithmetic is a parameter.  The [device]
    argument only says where storages live and is left out. *)

Class Timing (T : Type) := {
  t_zero : T;                (* the 0 that [sum] starts from *)
  t_add : T -> T -> T;
  t_sub : T -> T -> T;
  t_div : T -> nat -> T      (* division by a positive length *)
}.

Inductive bench_error :=
| TensorError (e : error)    (* raised by the tensor library *)
| ZeroDivisionError
| ValueError.

Inductive outcome (A : Type) :=
| Done (a : A)
| Failed (e : bench_error).
Arguments Done {A} a.
Arguments Failed {A} e.

Record oracle (F T : Type) := mkOracle {
  clock : nat -> T;          (* successive readings of time.time() *)
  normal : nat -> F;         (* successive samples of torch.randn *)
  pick : nat -> nat          (* successive draws of np.random *)
}.
Arguments clock {F T} o k.
Arguments normal {F T} o k.
Arguments pick {F T} o k.

Record world (F : Type) := mkW {
  w_heap : heap F;
  w_ticks : nat;             (* clock readings so far *)
  w_draws : nat;             (* normal samples so far *)
  w_picks : nat              (* np.random draws so far *)
}.
Arguments mkW {F} w_heap w_ticks w_draws w_picks.
Arguments w_heap {F} w.
Arguments w_ticks {F} w.
Arguments w_draws {F} w.
Arguments w_picks {F} w.

Section Harness.
Context {F : Type} `{Scalar F} `{Norm F} {T : Type} `{Timing T}.
Variable o : oracle F T.

Definition W (A : Type) := world F -> outcome (A * world F).

Definition wret {A} (a : A) : W A := fun w => Done (a, w).
Definition wfail {A} (e : bench_error) : W A := fun _ => Failed e.
Definition wbind {A B} (m : W A) (k : A -> W B) : W B :=
  fun w => match m w with
           | Done (a, w') => k a w'
           | Failed e => Failed e
           end.

(** A tensor program run on the store of the world. *)
Definition run_tensor {A} (m : M A) : W A :=
  fun w => match m (w_heap w) with
           | Ok (a, h') => Done (a, mkW h' (w_ticks w) (w_draws w) (w_picks w))
           | Raise e => Failed (TensorError e)
           end.

(** [torch.randn(n, d)] *)
Definition randn (n d : nat) : W tensor :=
  fun w =>
    Done (mkT (length (w_heap w)) 0 [n; d] (contiguous_strides [n; d]),
          mkW (w_heap w ++ [normal o <$> seq (w_draws w) (n * d)])
            (w_ticks w) (w_draws w + n * d) (w_picks w)).

(** [time.time()] *)
Definition time : W T :=
  fun w => Done (clock o (w_ticks w),
                 mkW (w_heap w) (S (w_ticks w)) (w_draws w) (w_picks w)).

(** [np.random.choice(l)]: one element of [l]; a ValueError when [l] is
    empty. *)
Definition choice (l : list nat) : W nat :=
  fun w => match l with
           | [] => Failed ValueError
           | _ :: _ =>
               Done (nth (pick o (w_picks w) mod length l) l 0,
                     mkW (w_heap w) (w_ticks w) (w_draws w) (S (w_picks w)))
           end.

(** [sum(t0) / len(t0)] *)
Definition average (t0 : list T) : W T :=
  match t0 with
  | [] => wfail ZeroDivisionError
  | _ :: _ => wret (t_div (fold_left t_add t0 t_zero) (length t0))
  end.

(** A [for] loop that updates a local variable ([t0], [t]). *)
Fixpoint for_acc {A B} (l : list A) (body : A -> B -> W B) (acc : B) : W B :=
  match l with
  | [] => wret acc
  | x :: l' => wbind (body x acc) (fun acc' => for_acc l' body acc')
  end.
End Harness.

Notation "'let+' x ':=' m 'in' k" := (wbind m (fun x => k))
  (at level 10, x name, m at level 200, k at level 200).

Section Benchmarks.
Context {F : Type} `{Scalar F} `{Norm F} {T : Type} `{Timing T}.
Variable o : oracle F T.

(** [bench(func, n_range, repeat, warmup)] of the second notebook. *)
Definition bench (func : tensor -> @M F tensor) (n_range : list nat)
    (repeat warmup : nat) : W (list T) :=
  let+ _ :=
    (if warmup =? 0 then wret tt
     else for_acc (seq 0 warmup) (fun _ _ =>
            let+ size := choice o n_range in
            let+ u := randn o size 2 in
            let+ _ := run_tensor (func u) in
            wret tt) tt) in
  for_acc n_range (fun n t =>
    let+ t0 := for_acc (seq 0 repeat) (fun _ t0 =>
                 let+ u := randn o n 2 in
                 let+ start := time o in
                 let+ _ := run_tensor (func u) in
                 let+ stop := time o in
                 wret (t0 ++ [t_sub stop start])) [] in
    let+ avg := average t0 in
    wret (t ++ [avg])) [].

(** [bench(func, n_range, repeat)] of the first notebook: no warm-up, and
    the size is passed on to [func]. *)
Definition Etude1_bench (func : tensor -> nat -> @M F tensor)
    (n_range : list nat) (repeat : nat) : W (list T) :=
  for_acc n_range (fun n t =>
    let+ t0 := for_acc (seq 0 repeat) (fun _ t0 =>
                 let+ u := randn o n 2 in
                 let+ start := time o in
                 let+ _ := run_tensor (func u n) in
                 let+ stop := time o in
                 wret (t0 ++ [t_sub stop start])) [] in
    let+ avg := average t0 in
    wret (t ++ [avg])) [].

(** The time of the i-th timed run after [c] clock readings, and the mean
    as [average] computes it. *)
Definition elapsed (c i : nat) : T :=
  t_sub (clock o (c + 2 * i + 1)) (clock o (c + 2 * i)).

Definition mean (l : list T) : T := t_div (fold_left t_add l t_zero) (length l).

(** What [bench] returns when nothing raises: for the k-th size, the mean
    of the next [repeat] timed runs. *)
Definition timings (c repeat sizes : nat) : list T :=
  (fun k => mean (map (elapsed (c + 2 * (k * repeat))) (seq 0 repeat)))
    <$> seq 0 sizes.
End Benchmarks.

(** [func] returns on every array of points that lives in the store. *)
Definition returns_on_points {F : Type} (func : tensor -> @M F tensor)
  : Prop :=
  forall h u n, wf_tensor h u -> t_shape u = [n; 2] ->
    exists r h', func u h = Ok (r, h').

Definition Etude1_variants {F : Type} `{Scalar F} `{Norm F}
  : list (tensor -> nat -> @M F tensor) :=
  [Etude1.naive; Etude1.one_dim_vectorized; Etude1.fully_vectorized].

(** A concrete harness: binary64 time stamps, a clock that advances by one
    second per reading, and a generator that walks through small integers. *)
Module BenchExamples.
Definition of_nat64 (k : nat) : spec_float :=
  binary_normalize 53 1024 (Z.of_nat k) 0 false.

Definition seconds : Timing spec_float :=
  {| t_zero := S754_zero false;
     t_add := SFadd 53 1024;
     t_sub := SFsub 53 1024;
     t_div := fun x n => SFdiv 53 1024 x (of_nat64 n) |}.

Definition ticking : oracle spec_float spec_float :=
  {| clock := of_nat64;
     normal := fun k => binary_normalize 24 128 (Z.of_nat k - 3) 0 false;
     pick := fun k => k |}.

Definition start : world spec_float := mkW [] 0 0 0.
End BenchExamples.

(** More inputs: other layouts, other ranks, non-finite coordinates. *)
Module MoreExamples.
Import F32.

(** (0,0) and (4,0), stored column by column, and the view that reads them
    row by row. *)
Definition column_major : heap spec_float := [[zero; four; zero; zero]].
Definition transposed : tensor := mkT 0 0 [2; 2] [1; 2].

(** (-0,-0) and (-4,-0) *)
Definition reflected : heap spec_float :=
  [[S754_zero true; S754_zero true; S754_finite true 8388608 (-21);
    S754_zero true]].

(** the numbers 0 and 4 *)
Definition numbers : heap spec_float := [[zero; four]].

(** (+oo,0) *)
Definition inf_point : heap spec_float := [[S754_infinity false; zero]].
End MoreExamples.

(** * Proofs *)

#[local] Arguments Nat.eqb : simpl never.
#[local] Arguments Nat.ltb : simpl never.
#[local] Arguments Nat.leb : simpl never.
#[local] Arguments Nat.div : simpl never.
#[local] Arguments Nat.modulo : simpl never.

(** ** Index arithmetic *)

Lemma numel_cons n s : numel (n :: s) = n * numel s.
Proof. reflexivity. Qed.

(** Where there are elements, no dimension is empty and the strides are the
    products of the sizes. *)
Lemma stride_of_numel s : numel s <> 0 -> stride_of s = numel s.
Proof.
  induction s as [|n s IH]; [done|].
  rewrite numel_cons. intros Hn. cbn [stride_of fold_right].
  fold (stride_of s). rewrite IH by nia. nia.
Qed.

Lemma dot_lt idx shape :
  in_bounds idx shape -> dot idx (contiguous_strides shape) < numel shape.
Proof.
  induction 1 as [|i n idx s Hi _ IH]; [simpl; lia|].
  cbn [contiguous_strides dot]. rewrite numel_cons, stride_of_numel by lia.
  nia.
Qed.

Lemma dot_unravel shape p :
  p < numel shape -> dot (unravel shape p) (contiguous_strides shape) = p.
Proof.
  revert p. induction shape as [|n s IH]; intros p Hp.
  - simpl in *. lia.
  - rewrite numel_cons in Hp.
    assert (numel s <> 0) by nia.
    cbn [unravel contiguous_strides dot]. rewrite stride_of_numel by done.
    rewrite IH by (apply Nat.mod_upper_bound; done).
    rewrite (Nat.div_mod_eq p (numel s)) at 3. lia.
Qed.

Lemma unravel_dot idx shape :
  in_bounds idx shape -> unravel shape (dot idx (contiguous_strides shape)) = idx.
Proof.
  induction 1 as [|i n idx s Hi Hb IH]; [done|].
  cbn [contiguous_strides dot unravel]. pose proof (dot_lt _ _ Hb) as Hlt.
  assert (numel s <> 0) by lia. rewrite stride_of_numel by done.
  rewrite Nat.div_add_l, Nat.div_small, Nat.add_0_r by lia.
  rewrite Nat.add_comm, Nat.Div0.mod_add, Nat.mod_small by lia.
  by rewrite IH.
Qed.


Lemma length_indices shape : length (indices shape) = numel shape.
Proof. unfold indices. by rewrite length_fmap, length_seq. Qed.

Lemma lookup_indices shape p :
  p < numel shape -> indices shape !! p = Some (unravel shape p).
Proof.
  intros Hp. unfold indices.
  by rewrite list_lookup_fmap, lookup_seq_lt.
Qed.


Lemma in_bounds_2 i j n m : i < n -> j < m -> in_bounds [i; j] [n; m].
Proof. intros. repeat constructor; done. Qed.


(** ** Loads and stores *)

Section StoreFacts.
Context {F : Type} `{Scalar F}.
Implicit Types (h : heap F) (st data : list F) (t : tensor).

Lemma load_app h h2 t idx :
  t_sid t < length h -> load (h ++ h2) t idx = load h t idx.
Proof. intros Hs. unfold load. by rewrite lookup_total_app_l. Qed.

Lemma load_at h1 h2 data off shape strides idx :
  load (h1 ++ data :: h2) (mkT (length h1) off shape strides) idx
  = data !!! (off + dot idx strides).
Proof. unfold load, addr; simpl. by rewrite list_lookup_total_middle. Qed.

Lemma load_fresh (g : list nat -> F) h1 h2 shape idx :
  in_bounds idx shape ->
  load (h1 ++ (g <$> indices shape) :: h2)
       (mkT (length h1) 0 shape (contiguous_strides shape)) idx = g idx.
Proof.
  intros Hb. rewrite load_at. simpl.
  pose proof (dot_lt _ _ Hb) as Hlt.
  apply list_lookup_total_correct.
  rewrite list_lookup_fmap, lookup_indices by done.
  simpl. by rewrite unravel_dot.
Qed.

Lemma store_at h1 h2 data off shape strides idx v :
  store (h1 ++ data :: h2) (mkT (length h1) off shape strides) idx v
  = h1 ++ <[off + dot idx strides := v]> data :: h2.
Proof.
  unfold store, addr; simpl. rewrite list_lookup_total_middle by done.
  rewrite insert_app_r_alt by lia. by rewrite Nat.sub_diag.
Qed.

(** A sequence of stores through one tensor only changes its storage. *)
Lemma fold_store (g : list nat -> F) idxs h1 h2 data off shape strides :
  fold_left (fun h' idx => store h' (mkT (length h1) off shape strides) idx (g idx))
    idxs (h1 ++ data :: h2)
  = h1 ++ fold_left (fun st idx => <[off + dot idx strides := g idx]> st)
            idxs data :: h2.
Proof.
  revert data. induction idxs as [|idx idxs IH]; intros data; simpl; [done|].
  by rewrite store_at, IH.
Qed.

Lemma fold_map_store (f : F -> F) idxs h1 h2 data off shape strides :
  let t := mkT (length h1) off shape strides in
  fold_left (fun h' idx => store h' t idx (f (load h' t idx)))
    idxs (h1 ++ data :: h2)
  = h1 ++ fold_left (fun st idx =>
                       <[off + dot idx strides := f (st !!! (off + dot idx strides))]> st)
            idxs data :: h2.
Proof.
  intros t. subst t.
  revert data. induction idxs as [|idx idxs IH]; intros data; simpl; [done|].
  by rewrite load_at, store_at, IH.
Qed.

(** Updating every position in turn is a map. *)
Lemma fold_update_all (f : F -> F) pre rest :
  fold_left (fun st p => <[p := f (st !!! p)]> st)
    (seq (length pre) (length rest)) (pre ++ rest)
  = pre ++ (f <$> rest).
Proof.
  revert pre. induction rest as [|x rest IH]; intros pre; simpl; [done|].
  rewrite list_lookup_total_middle by done.
  rewrite insert_app_r_alt, Nat.sub_diag by lia. simpl.
  specialize (IH (pre ++ [f x])).
  rewrite length_app in IH. simpl in IH.
  rewrite Nat.add_1_r in IH.
  rewrite <- !app_assoc in IH. simpl in IH. done.
Qed.

Lemma fold_left_fmap {A B C} (g : A -> B) (k : C -> B -> C) l a :
  fold_left k (g <$> l) a = fold_left (fun c x => k c (g x)) l a.
Proof. revert a. induction l; intros; simpl; auto. Qed.

Lemma fold_left_ext_elem {A C} (k1 k2 : C -> A -> C) l a :
  (forall c x, x ∈ l -> k1 c x = k2 c x) ->
  fold_left k1 l a = fold_left k2 l a.
Proof.
  revert a. induction l as [|x l IH]; intros a Hk; simpl; [done|].
  rewrite Hk by left. apply IH. intros. apply Hk. by right.
Qed.

(** An in-place elementwise operation on a tensor that owns its whole
    storage maps the function over that storage. *)
Lemma map__contiguous (f : F -> F) h1 h2 data shape :
  length data = numel shape ->
  map_ f (mkT (length h1) 0 shape (contiguous_strides shape)) (h1 ++ data :: h2)
  = Ok (mkT (length h1) 0 shape (contiguous_strides shape),
        h1 ++ (f <$> data) :: h2).
Proof.
  intros Hlen. unfold map_. f_equal. f_equal.
  rewrite fold_map_store. f_equal. f_equal. simpl.
  unfold indices. rewrite fold_left_fmap.
  rewrite (fold_left_ext_elem _ (fun st p => <[p := f (st !!! p)]> st)).
  - rewrite <- Hlen. apply (fold_update_all f []).
  - intros st p Hp. apply elem_of_seq in Hp.
    rewrite dot_unravel by lia. done.
Qed.
End StoreFacts.

Lemma numel_1 n : numel [n] = n.
Proof. unfold numel; simpl. lia. Qed.

Lemma numel_2 n m : numel [n; m] = n * m.
Proof. unfold numel; simpl. lia. Qed.

Lemma contiguous_strides_1 n : contiguous_strides [n] = [1].
Proof. reflexivity. Qed.

Lemma contiguous_strides_2 n m :
  contiguous_strides [n; m] = [Nat.max m 1; 1].
Proof. simpl. f_equal. lia. Qed.

Lemma contiguous_strides_rows n m :
  0 < m -> contiguous_strides [n; m] = [m; 1].
Proof. intros Hm. rewrite contiguous_strides_2. f_equal. lia. Qed.

Lemma indices_0 : indices [] = [[]].
Proof. reflexivity. Qed.

Lemma indices_1 n : indices [n] = (fun p => [p]) <$> seq 0 n.
Proof.
  unfold indices. rewrite numel_1. apply list_fmap_ext.
  intros _ p _. simpl. change (numel []) with 1. by rewrite Nat.div_1_r.
Qed.

Lemma map_fmap {A B} (f : A -> B) (l : list A) : map f l = f <$> l.
Proof. reflexivity. Qed.

(** ** Shapes and views met by the programs *)

#[local] Arguments Nat.mul : simpl never.
#[local] Arguments contiguous_strides : simpl never.
#[local] Arguments numel : simpl never.
#[local] Arguments map_ : simpl never.
#[local] Arguments indices : simpl never.
#[local] Arguments broadcast_shapes : simpl never.
#[local] Arguments expand : simpl never.
#[local] Arguments load : simpl never.
#[local] Arguments store : simpl never.

Lemma broadcast_shapes_pairs M D :
  broadcast_shapes [M; 1; D] [1; M; D] = Some [M; M; D].
Proof.
  unfold broadcast_shapes. simpl. rewrite Nat.eqb_refl.
  destruct (M =? 1) eqn:E1; simpl.
  - apply Nat.eqb_eq in E1. subst. reflexivity.
  - rewrite Nat.eqb_sym, E1. reflexivity.
Qed.

Lemma broadcast_shapes_point D : broadcast_shapes [D] [D] = Some [D].
Proof. unfold broadcast_shapes. simpl. by rewrite Nat.eqb_refl. Qed.

Lemma broadcast_shapes_row M D :
  broadcast_shapes [D] [M; D] = Some [M; D].
Proof. unfold broadcast_shapes. simpl. by rewrite Nat.eqb_refl. Qed.

Lemma expand_same sid off shape strides :
  length strides = length shape ->
  expand (mkT sid off shape strides) shape = Some (mkT sid off shape strides).
Proof.
  intros Hlen. unfold expand; simpl.
  assert (Hrev : forall sh st, length st = length sh ->
            expand_rev sh st sh = Some st).
  { induction sh as [|n sh IH]; intros [|x st] Hl; simpl in *; try done.
    rewrite IH by lia. by rewrite Nat.eqb_refl. }
  rewrite Hrev by (by rewrite !length_rev). simpl. by rewrite rev_involutive.
Qed.

(** Expanding the column view [M; 1; D] and the row view [1; M; D] to
    [M; M; D]: the stretched dimension gets stride 0, unless it has size 1
    already. *)
Lemma expand_column sid off M D a b c :
  exists x, expand (mkT sid off [M; 1; D] [a; b; c]) [M; M; D]
            = Some (mkT sid off [M; M; D] [a; x; c])
            /\ (M = 1 \/ x = 0).
Proof.
  unfold expand; simpl. rewrite !Nat.eqb_refl.
  destruct (1 =? M) eqn:E; simpl.
  - exists b. split; [done|]. left. symmetry. by apply Nat.eqb_eq.
  - exists 0. split; [done|]. by right.
Qed.

Lemma expand_row sid off M D a b c :
  exists x, expand (mkT sid off [1; M; D] [a; b; c]) [M; M; D]
            = Some (mkT sid off [M; M; D] [x; b; c])
            /\ (M = 1 \/ x = 0).
Proof.
  unfold expand; simpl. rewrite !Nat.eqb_refl.
  destruct (1 =? M) eqn:E; simpl.
  - exists a. split; [done|]. left. symmetry. by apply Nat.eqb_eq.
  - exists 0. split; [done|]. by right.
Qed.

(** Expanding a point [D] to the shape [M; D] of the whole array. *)
Lemma expand_point sid off M D c :
  expand (mkT sid off [D] [c]) [M; D] = Some (mkT sid off [M; D] [0; c]).
Proof. unfold expand; simpl. by rewrite Nat.eqb_refl. Qed.

Section ProgramFacts.
Context {F : Type} `{Scalar F} `{Norm F}.
Implicit Types (h : heap F) (u r : tensor).


(** *** Equations of the operations *)

Lemma sub_eq h a b bs a' b' :
  broadcast_shapes (t_shape a) (t_shape b) = Some bs ->
  expand a bs = Some a' -> expand b bs = Some b' ->
  sub a b h
  = Ok (mkT (length h) 0 bs (contiguous_strides bs),
        h ++ [(fun idx => fsub (load h a' idx) (load h b' idx)) <$> indices bs]).
Proof. intros Hbs Ha Hb. unfold sub, broadcast_sub. by rewrite Hbs, Ha, Hb. Qed.

Lemma dist_eq h a b bs a' b' :
  broadcast_shapes (t_shape a) (t_shape b) = Some bs ->
  expand a bs = Some a' -> expand b bs = Some b' ->
  dist a b h
  = Ok (fnorm ((fun idx => fsub (load h a' idx) (load h b' idx))
                 <$> indices bs),
        h).
Proof. intros Hbs Ha Hb. unfold dist, broadcast_sub. by rewrite Hbs, Ha, Hb. Qed.

Lemma sum_dim_eq h d t :
  d < length (t_shape t) ->
  sum_dim d t h
  = Ok (mkT (length h) 0 (delete d (t_shape t))
          (contiguous_strides (delete d (t_shape t))),
        h ++ [(fun idx =>
                 fsum (map (fun k => load h t (take d idx ++ k :: drop d idx))
                         (seq 0 (nth d (t_shape t) 0))))
                <$> indices (delete d (t_shape t))]).
Proof.
  intros Hd. unfold sum_dim, alloc.
  apply Nat.ltb_lt in Hd. by rewrite Hd.
Qed.

Lemma select_eq h sid off n shape st strides i :
  i < n ->
  select (mkT sid off (n :: shape) (st :: strides)) i h
  = Ok (mkT sid (off + i * st) shape strides, h).
Proof.
  intros Hi. unfold select; cbn [t_shape t_strides t_sid t_off].
  apply Nat.ltb_lt in Hi. by rewrite Hi.
Qed.

Lemma select_out h t n shape i :
  t_shape t = n :: shape -> n <= i -> select t i h = Raise IndexError.
Proof.
  intros Hs Hi. unfold select. rewrite Hs.
  destruct (t_strides t); [done|].
  apply Nat.ltb_ge in Hi. by rewrite Hi.
Qed.

Lemma zeros_eq h shape :
  zeros shape h
  = Ok (mkT (length h) 0 shape (contiguous_strides shape),
        h ++ [replicate (numel shape) fzero]).
Proof. reflexivity. Qed.

(** *** Loops *)

Lemma for_each_app l1 l2 (body : nat -> M unit) h :
  for_each (l1 ++ l2) body h
  = match for_each l1 body h with
    | Ok (_, h') => for_each l2 body h'
    | Raise e => Raise e
    end.
Proof.
  revert h. induction l1 as [|x l1 IH]; intros h; simpl; [done|].
  unfold bind. destruct (body x h) as [[[] h']|e]; [apply IH|done].
Qed.

(** Invariant rule for [for i in range(s, s + n)]. *)
Lemma for_each_inv (I : nat -> heap F -> Prop) (body : nat -> M unit) n :
  forall s h,
  I s h ->
  (forall k hk, s <= k < s + n -> I k hk ->
     exists hk', body k hk = Ok (tt, hk') /\ I (S k) hk') ->
  exists h', for_each (seq s n) body h = Ok (tt, h') /\ I (s + n) h'.
Proof.
  induction n as [|n IH]; intros s h HI Hbody; simpl.
  - exists h. rewrite Nat.add_0_r. done.
  - destruct (Hbody s h) as (h1 & E1 & HI1); [lia|done|].
    unfold bind. rewrite E1.
    destruct (IH (S s) h1 HI1) as (h' & E' & HI').
    { intros k hk Hk. apply Hbody. lia. }
    exists h'. split; [done|]. by replace (s + S n) with (S s + n) by lia.
Qed.

(** Writing a row of [n] values at offset [off] of a storage. *)
Lemma fold_insert_seq (g : nat -> F) n :
  forall (st : list F) off, off + n <= length st ->
  let st' := fold_left (fun st p => <[off + p := g p]> st) (seq 0 n) st in
  length st' = length st
  /\ forall q, st' !!! q
               = if decide (off <= q < off + n) then g (q - off) else st !!! q.
Proof.
  induction n as [|n IH]; intros st off Hlen; cbv zeta.
  - simpl. split; [done|]. intros q. case_decide; [lia|done].
  - rewrite seq_S, fold_left_app. simpl.
    destruct (IH st off) as [IHlen IHq]; [lia|].
    rewrite length_insert. split; [done|]. intros q.
    destruct (decide (off + n = q)) as [<-|Hne].
    + rewrite list_lookup_total_insert_eq by lia.
      rewrite decide_True by lia. f_equal. lia.
    + rewrite list_lookup_total_insert_ne by done. rewrite IHq.
      repeat case_decide; try done; lia.
Qed.

(** The column and row views of [u] read the coordinates of [u]. *)
Lemma load_pairs h sid off M D s0 s1 x y i j k :
  i < M -> j < M -> (M = 1 \/ x = 0) -> (M = 1 \/ y = 0) ->
  load h (mkT sid off [M; M; D] [s0; x; s1]) [i; j; k]
    = load h (mkT sid off [M; D] [s0; s1]) [i; k]
  /\ load h (mkT sid off [M; M; D] [y; s0; s1]) [i; j; k]
    = load h (mkT sid off [M; D] [s0; s1]) [j; k].
Proof.
  intros Hi Hj Hx Hy. unfold load, addr; simpl.
  split; f_equal.
  - assert (j * x = 0) as -> by (destruct Hx; subst; nia). lia.
  - assert (i * y = 0) as -> by (destruct Hy; subst; nia). lia.
Qed.

Lemma fully_vectorized_spec h u M D N :
  wf_tensor h u -> t_shape u = [M; D] ->
  exists r new,
    Etude1.fully_vectorized u N h = Ok (r, h ++ new)
    /\ t_shape r = [M; M]
    /\ forall i j, i < M -> j < M ->
         load (h ++ new) r [i; j] = affinity h u D i j.
Proof.
  destruct u as [sid off shape strides]. intros [Hsid Hlen] Hshape.
  simpl in *. subst shape.
  destruct strides as [|s0 [|s1 [|? ?]]]; simpl in Hlen; try lia.
  unfold Etude1.fully_vectorized, bind, reshape_lead1, permute, ret.
  cbn [t_sid t_off t_shape t_strides length map nth].
  change (is_perm [1; 0; 2] 3) with true. cbv beta iota.
  destruct (expand_column sid off M D s0 (numel [M; D]) s1) as (x & Ex & Hx).
  destruct (expand_row sid off M D (numel [M; D]) s0 s1) as (y & Ey & Hy).
  erewrite sub_eq;
    [| exact (broadcast_shapes_pairs M D) | exact Ex | exact Ey].
  cbv beta iota. unfold pow2_, sqrt_, mul_, exp_.
  rewrite (map__contiguous _ h []) by (by rewrite length_fmap, length_indices).
  cbv beta iota.
  rewrite sum_dim_eq by (simpl; lia).
  cbv beta iota. cbn [t_shape delete list_delete nth].
  rewrite (map__contiguous fsqrt _ [])
    by (by rewrite length_fmap, length_indices).
  cbv beta iota.
  rewrite (map__contiguous _ _ [])
    by (by rewrite !length_fmap, length_indices).
  cbv beta iota.
  rewrite (map__contiguous fexp _ [])
    by (by rewrite !length_fmap, length_indices).
  rewrite <- app_assoc.
  eexists _, _. split; [reflexivity|]. split; [reflexivity|].
  intros i j Hi Hj.
  rewrite app_assoc, <- !list_fmap_compose.
  rewrite (load_fresh _ (h ++ [_]) []) by (by apply in_bounds_2).
  unfold affinity, compose. do 4 f_equal.
  apply map_ext_in. intros k Hk%in_seq.
  cbn [take drop app].
  rewrite (load_fresh _ h []) by (repeat constructor; lia).
  destruct (load_pairs h sid off M D s0 s1 x y i j k Hi Hj Hx Hy) as [-> ->].
  done.
Qed.

Lemma affinity_app h h2 u D i j :
  t_sid u < length h -> affinity (h ++ h2) u D i j = affinity h u D i j.
Proof.
  intros Hs. unfold affinity. do 4 f_equal.
  apply map_ext. intros k. by rewrite !load_app.
Qed.

Lemma dist_affinity_app h h2 u D i j :
  t_sid u < length h ->
  dist_affinity (h ++ h2) u D i j = dist_affinity h u D i j.
Proof.
  intros Hs. unfold dist_affinity, differences. do 3 f_equal.
  apply map_ext. intros k. by rewrite !load_app.
Qed.

(** The pipeline is the square root of the sum of the squares of the
    differences. *)
Lemma affinity_pipeline h u D i j :
  affinity h u D i j
  = fexp (fmul (pipeline_norm (differences h u D i j)) neg_quarter).
Proof.
  unfold affinity, pipeline_norm, differences. by rewrite map_map.
Qed.

(** The body of the row loop up to [exp_], followed by any continuation
    [K]: two storages are allocated, the second holds row [i]. *)
Lemma row_pipeline {A} (K : tensor -> M A) hk sid off M D s0 s1 i :
  i < M ->
  let u := mkT sid off [M; D] [s0; s1] in
  exists sq final,
    (let* ui := select u i in
     let* du := sub ui u in
     let* d1 := pow2_ du in
     let* d2 := sum_dim 1 d1 in
     let* d3 := sqrt_ d2 in
     let* d4 := mul_ neg_quarter d3 in
     let* d5 := exp_ d4 in
     K d5) hk
    = K (mkT (length (hk ++ [sq])) 0 [M] (contiguous_strides [M]))
        ((hk ++ [sq]) ++ [final])
    /\ length final = M
    /\ forall b, b < M -> final !!! b = affinity hk u D i b.
Proof.
  intros Hi u. subst u. unfold bind.
  rewrite select_eq by done. cbv beta iota.
  erewrite sub_eq;
    [| exact (broadcast_shapes_row M D) | exact (expand_point _ _ M D _)
     | exact (expand_same _ _ [M; D] [s0; s1] eq_refl)].
  cbv beta iota. unfold pow2_, sqrt_, mul_, exp_.
  rewrite (map__contiguous _ hk []) by (by rewrite length_fmap, length_indices).
  cbv beta iota.
  rewrite sum_dim_eq by (simpl; lia).
  cbv beta iota. cbn [t_shape delete list_delete nth].
  rewrite (map__contiguous fsqrt _ [])
    by (by rewrite length_fmap, length_indices).
  cbv beta iota.
  rewrite (map__contiguous _ _ [])
    by (by rewrite !length_fmap, length_indices).
  cbv beta iota.
  rewrite (map__contiguous fexp _ [])
    by (by rewrite !length_fmap, length_indices).
  eexists _, _. split; [reflexivity|]. split.
  - by rewrite !length_fmap, length_indices, numel_1.
  - intros b Hb. rewrite <- !list_fmap_compose, indices_1.
    rewrite <- list_fmap_compose.
    erewrite list_lookup_total_correct;
      [| by rewrite list_lookup_fmap, lookup_seq_lt by done].
    unfold affinity, compose. cbn [Nat.add]. do 4 f_equal.
    apply map_ext_in. intros k Hk%in_seq.
    cbn [take drop app].
    rewrite (load_fresh _ hk []) by (repeat constructor; lia).
    unfold load, addr. cbn [t_sid t_off t_strides dot]. do 3 f_equal. lia.
Qed.

(** [result[i, :] = src] for a row of the right length. *)
Lemma setrow_same h st rest N i s' :
  i < N ->
  let hc := h ++ st :: rest in
  let src := mkT s' 0 [N] (contiguous_strides [N]) in
  setrow (mkT (length h) 0 [N; N] (contiguous_strides [N; N])) i src hc
  = Ok (tt, h ++ fold_left (fun st p => <[i * N + p := load hc src [p]]> st)
                   (seq 0 N) st :: rest).
Proof.
  intros Hi hc src. subst hc src. unfold setrow, bind.
  rewrite contiguous_strides_rows by lia. rewrite select_eq by done.
  cbv beta iota.
  cbn [t_shape]. unfold copy_. cbn [t_shape].
  rewrite expand_same by done.
  rewrite fold_store, indices_1, fold_left_fmap. do 4 f_equal.
  apply fold_left_ext_elem. intros st' p _. cbn [dot]. f_equal. lia.
Qed.

(** A row of one element is broadcast. *)
Lemma setrow_broadcast h st rest N i s' :
  i < N -> N <> 1 ->
  exists st',
    setrow (mkT (length h) 0 [N; N] (contiguous_strides [N; N])) i
      (mkT s' 0 [1] (contiguous_strides [1])) (h ++ st :: rest)
    = Ok (tt, h ++ st' :: rest).
Proof.
  intros Hi HN. unfold setrow, bind.
  rewrite contiguous_strides_rows by lia. rewrite select_eq by done.
  cbv beta iota.
  cbn [t_shape]. unfold copy_, expand. rewrite contiguous_strides_1.
  cbn [t_shape t_strides t_sid t_off rev app expand_rev].
  destruct (1 =? N) eqn:E; [apply Nat.eqb_eq in E; lia|].
  rewrite Nat.eqb_refl. cbn [option_map rev app].
  rewrite fold_store. eauto.
Qed.

(** Any other length is a shape error. *)
Lemma setrow_mismatch h N M i rs s' :
  i < N -> M <> N -> M <> 1 ->
  setrow (mkT rs 0 [N; N] (contiguous_strides [N; N])) i
    (mkT s' 0 [M] (contiguous_strides [M])) h
  = Raise RuntimeError.
Proof.
  intros Hi HN H1. unfold setrow, bind.
  rewrite contiguous_strides_rows by lia. rewrite select_eq by done.
  cbv beta iota.
  cbn [t_shape]. unfold copy_, expand. rewrite contiguous_strides_1.
  cbn [t_shape t_strides t_sid t_off rev app expand_rev].
  destruct (M =? N) eqn:E; [apply Nat.eqb_eq in E; lia|].
  destruct (M =? 1) eqn:E1; [apply Nat.eqb_eq in E1; lia|].
  done.
Qed.

Lemma bind_unfold {A B} (m : M A) (k : A -> M B) h :
  bind m k h = match m h with
               | Ok (a, h') => k a h'
               | Raise e => Raise e
               end.
Proof. reflexivity. Qed.

Lemma load_result h st rest N i j :
  j < N ->
  load (h ++ st :: rest)
    (mkT (length h) 0 [N; N] (contiguous_strides [N; N])) [i; j]
  = st !!! (i * N + j).
Proof.
  intros Hj. rewrite load_at, contiguous_strides_rows by lia.
  cbn [dot]. f_equal. lia.
Qed.

Lemma one_dim_vectorized_spec h u M D :
  wf_tensor h u -> t_shape u = [M; D] ->
  exists r new,
    Etude1.one_dim_vectorized u M h = Ok (r, h ++ new)
    /\ t_shape r = [M; M]
    /\ forall i j, i < M -> j < M ->
         load (h ++ new) r [i; j] = affinity h u D i j.
Proof.
  destruct u as [sid off shape strides]. intros [Hsid Hlen] Hshape.
  simpl in *. subst shape.
  destruct strides as [|s0 [|s1 [|? ?]]]; simpl in Hlen; try lia.
  set (u := mkT sid off [M; D] [s0; s1]).
  unfold Etude1.one_dim_vectorized.
  rewrite bind_unfold, zeros_eq. cbv beta iota.
  set (result := mkT (length h) 0 [M; M] (contiguous_strides [M; M])).
  rewrite bind_unfold. unfold for_range.
  pose (I := fun (k : nat) (hk : heap F) =>
    exists st temps, hk = h ++ st :: temps /\ length st = M * M
      /\ forall a b, a < k -> b < M ->
           st !!! (a * M + b) = affinity h u D a b).
  match goal with |- context [for_each _ ?body _] =>
    destruct (for_each_inv I body M 0 (h ++ [replicate (numel [M; M]) fzero]))
      as (h' & -> & (st & temps & -> & Hst & Hinv))
  end.
  - exists (replicate (numel [M; M]) fzero), [].
    split; [done|]. rewrite length_replicate, numel_2. split; [done|]. lia.
  - intros k hk Hk (st & temps & Ehk & Hst & Hinv). cbv beta.
    destruct (row_pipeline (fun d5 => setrow result k d5) hk sid off M D s0 s1 k)
      as (sq & final & Heq & Hfin & Hrow); [lia|].
    fold u in Heq, Hrow. rewrite Heq. clear Heq.
    assert (Hload : forall p,
      load ((hk ++ [sq]) ++ [final])
        (mkT (length (hk ++ [sq])) 0 [M] (contiguous_strides [M])) [p]
      = final !!! p).
    { intros p. rewrite load_at, contiguous_strides_1. cbn [dot]. f_equal. lia. }
    assert (Ehc : (hk ++ [sq]) ++ [final] = h ++ st :: (temps ++ [sq; final])).
    { rewrite Ehk, <- !app_assoc. reflexivity. }
    rewrite Ehc in *. unfold result. rewrite setrow_same by lia.
    eexists. split; [reflexivity|].
    eexists _, _. split; [reflexivity|].
    match goal with |- context [fold_left ?f (seq 0 M) st] =>
      destruct (fold_insert_seq
                  (fun p => load (h ++ st :: temps ++ [sq; final])
                              (mkT (length (hk ++ [sq])) 0 [M]
                                 (contiguous_strides [M])) [p])
                  M st (k * M)) as [Hl Hq]; [nia|]
    end.
    cbv zeta in Hl, Hq. split; [lia|].
    intros a b Ha Hb. rewrite Hq. case_decide.
    + assert (a = k) as -> by nia.
      replace (k * M + b - k * M) with b by lia.
      rewrite Hload, Hrow by done. rewrite Ehk. by apply affinity_app.
    + apply Hinv; [|done]. destruct (decide (a = k)); [subst; lia|lia].
  - cbv beta iota. unfold ret.
    eexists _, _. split; [reflexivity|]. split; [reflexivity|].
    intros i j Hi Hj. unfold result. rewrite load_result by done.
    by apply Hinv.
Qed.

(** *** The scalar loop *)

Lemma setitem2_eq h st rest N i j v :
  i < N -> j < N ->
  setitem2 (mkT (length h) 0 [N; N] (contiguous_strides [N; N])) i j v
    (h ++ st :: rest)
  = Ok (tt, h ++ <[i * N + j := v]> st :: rest).
Proof.
  intros Hi Hj. unfold setitem2, bind.
  rewrite contiguous_strides_rows by lia. rewrite select_eq by done.
  cbv beta iota.
  rewrite select_eq by done. cbv beta iota.
  unfold fill_. cbn [t_shape]. rewrite indices_0. cbn [fold_left].
  rewrite store_at. cbn [dot]. do 5 f_equal. lia.
Qed.

(** [torch.dist(u[i], u[j])] *)
Lemma dist_points hk sid off M D s0 s1 i j :
  let u := mkT sid off [M; D] [s0; s1] in
  dist (mkT sid (off + i * s0) [D] [s1]) (mkT sid (off + j * s0) [D] [s1]) hk
  = Ok (fnorm (differences hk u D i j), hk).
Proof.
  intros u. subst u.
  erewrite dist_eq;
    [| exact (broadcast_shapes_point D)
     | exact (expand_same _ _ [D] [s1] eq_refl)
     | exact (expand_same _ _ [D] [s1] eq_refl)].
  do 3 f_equal. unfold differences.
  rewrite indices_1, <- list_fmap_compose.
  apply list_fmap_ext. intros _ k _. unfold compose, load, addr.
  cbn [t_sid t_off t_strides dot]. do 2 f_equal; lia.
Qed.

Lemma naive_body_eq h st rest sid off M D s0 s1 N i j :
  i < M -> j < M -> i < N -> j < N ->
  let u := mkT sid off [M; D] [s0; s1] in
  let result := mkT (length h) 0 [N; N] (contiguous_strides [N; N]) in
  (let* ui := select u i in
   let* uj := select u j in
   let* d := dist ui uj in
   setitem2 result i j (fexp (fmul d neg_quarter))) (h ++ st :: rest)
  = Ok (tt, h ++ <[i * N + j := dist_affinity (h ++ st :: rest) u D i j]> st
                 :: rest).
Proof.
  intros Hi Hj HiN HjN u result. subst u result. unfold bind.
  rewrite select_eq by done. cbv beta iota.
  rewrite select_eq by done. cbv beta iota.
  rewrite (dist_points _ sid off M D s0 s1 i j). cbv beta iota.
  by rewrite setitem2_eq.
Qed.

Lemma naive_body_out hk u result M D i j :
  t_shape u = [M; D] -> M <= j ->
  (let* ui := select u i in
   let* uj := select u j in
   let* d := dist ui uj in
   setitem2 result i j (fexp (fmul d neg_quarter))) hk
  = Raise IndexError.
Proof.
  intros Hs Hj. unfold bind.
  destruct (select u i hk) as [[ui h1]|e] eqn:E.
  - assert (h1 = hk) as ->.
    { unfold select in E. rewrite Hs in E. destruct (t_strides u); [done|].
      destruct (i <? M); [|done]. by inversion E. }
    by rewrite (select_out _ _ _ _ _ Hs Hj).
  - unfold select in E. rewrite Hs in E. destruct (t_strides u); [by inversion E|].
    destruct (i <? M); by inversion E.
Qed.

Lemma naive_spec h u M D N :
  wf_tensor h u -> t_shape u = [M; D] -> N <= M ->
  exists r st,
    Etude1.naive u N h = Ok (r, h ++ [st])
    /\ t_shape r = [N; N]
    /\ forall i j, i < N -> j < N ->
         load (h ++ [st]) r [i; j] = dist_affinity h u D i j.
Proof.
  destruct u as [sid off shape strides]. intros [Hsid Hlen] Hshape HN.
  simpl in *. subst shape.
  destruct strides as [|s0 [|s1 [|? ?]]]; simpl in Hlen; try lia.
  set (u := mkT sid off [M; D] [s0; s1]).
  unfold Etude1.naive.
  rewrite bind_unfold, zeros_eq. cbv beta iota.
  set (result := mkT (length h) 0 [N; N] (contiguous_strides [N; N])).
  rewrite bind_unfold. unfold for_range.
  pose (J := fun (i j : nat) (hk : heap F) =>
    exists st, hk = h ++ [st] /\ length st = N * N
      /\ forall a b, a < i \/ (a = i /\ b < j) -> b < N ->
           st !!! (a * N + b) = dist_affinity h u D a b).
  match goal with |- context [for_each _ ?body _] =>
    destruct (for_each_inv (fun i => J i 0) body N 0
                (h ++ [replicate (numel [N; N]) fzero]))
      as (h' & -> & (st & -> & Hst & Hinv))
  end.
  - exists (replicate (numel [N; N]) fzero).
    split; [done|]. rewrite length_replicate, numel_2. split; [done|]. lia.
  - intros i hk Hi HJ. cbv beta.
    match goal with |- context [for_each _ ?body _] =>
      destruct (for_each_inv (J i) body N 0 hk HJ)
        as (h' & -> & (st & -> & Hst & Hinv))
    end.
    + intros j hj Hj (st & -> & Hst & Hinv). cbv beta.
      fold u result. unfold u at 1, result.
      rewrite naive_body_eq by lia. fold u.
      eexists. split; [reflexivity|].
      eexists. split; [reflexivity|]. rewrite length_insert.
      split; [done|]. intros a b Hab Hb.
      rewrite list_lookup_total_insert. case_decide as Hd.
      * assert (a = i /\ b = j) as [-> ->] by nia.
        by apply (dist_affinity_app h [st]).
      * apply Hinv; [|done].
        destruct (decide (a = i /\ b = j)) as [[-> ->]|Hne].
        { exfalso. apply Hd. split; [done|]. nia. }
        lia.
    + eexists. split; [reflexivity|].
      exists st. split; [done|]. split; [done|].
      intros a b Hab Hb. apply Hinv; [|done]. lia.
  - cbv beta iota. unfold ret.
    eexists _, _. split; [reflexivity|]. split; [reflexivity|].
    intros i j Hi Hj. unfold result. rewrite (load_result h st []) by done.
    apply Hinv; [|done]. lia.
Qed.

(** *** A size argument that disagrees with the array (first notebook) *)

(** The loop stops at the first iteration that raises. *)
Lemma for_each_raise_at (body : nat -> M unit) s n k h hk e :
  s <= k < s + n ->
  for_each (seq s (k - s)) body h = Ok (tt, hk) ->
  body k hk = Raise e ->
  for_each (seq s n) body h = Raise e.
Proof.
  intros Hk Hpre Hbody.
  replace n with ((k - s) + S (s + n - S k)) by lia.
  rewrite seq_app, for_each_app, Hpre.
  replace (s + (k - s)) with k by lia.
  cbn [seq for_each]. by rewrite bind_unfold, Hbody.
Qed.

Lemma naive_out_of_range h u M D N :
  wf_tensor h u -> t_shape u = [M; D] -> M < N ->
  Etude1.naive u N h = Raise IndexError.
Proof.
  destruct u as [sid off shape strides]. intros [Hsid Hlen] Hshape HN.
  simpl in *. subst shape.
  destruct strides as [|s0 [|s1 [|? ?]]]; simpl in Hlen; try lia.
  set (u := mkT sid off [M; D] [s0; s1]).
  unfold Etude1.naive.
  rewrite bind_unfold, zeros_eq. cbv beta iota.
  set (result := mkT (length h) 0 [N; N] (contiguous_strides [N; N])).
  rewrite bind_unfold. unfold for_range.
  erewrite (for_each_raise_at _ 0 N 0); [done|lia|reflexivity|].
  cbv beta.
  match goal with |- for_each _ ?body ?h0 = _ =>
    destruct (for_each_inv (fun _ hk => exists st, hk = h ++ [st]) body M 0 h0)
      as (h' & Eh' & (st & ->))
  end.
  - eauto.
  - intros j hj Hj (st & ->). cbv beta.
    unfold u at 1, result. rewrite naive_body_eq by lia. eauto.
  - eapply (for_each_raise_at _ 0 N M); [lia| |].
    + rewrite Nat.sub_0_r. exact Eh'.
    + cbv beta. by apply (naive_body_out _ u result M D).
Qed.

Lemma one_dim_shape_error h u M D N :
  wf_tensor h u -> t_shape u = [M; D] -> 0 < N -> N <> M -> 2 <= M ->
  Etude1.one_dim_vectorized u N h = Raise RuntimeError.
Proof.
  destruct u as [sid off shape strides]. intros [Hsid Hlen] Hshape HN HNM HM.
  simpl in *. subst shape.
  destruct strides as [|s0 [|s1 [|? ?]]]; simpl in Hlen; try lia.
  unfold Etude1.one_dim_vectorized.
  rewrite bind_unfold, zeros_eq. cbv beta iota.
  rewrite bind_unfold. unfold for_range.
  erewrite (for_each_raise_at _ 0 N 0); [done|lia|reflexivity|].
  cbv beta.
  match goal with |- context [setrow ?result 0] =>
    destruct (row_pipeline (fun d5 => setrow result 0 d5)
                (h ++ [replicate (numel [N; N]) fzero]) sid off M D s0 s1 0)
      as (sq & final & -> & _ & _); [lia|]
  end.
  by rewrite setrow_mismatch by lia.
Qed.

Lemma one_dim_index_error h u M D N :
  wf_tensor h u -> t_shape u = [M; D] -> M < N -> M <= 1 ->
  Etude1.one_dim_vectorized u N h = Raise IndexError.
Proof.
  destruct u as [sid off shape strides]. intros [Hsid Hlen] Hshape HN HM.
  simpl in *. subst shape.
  destruct strides as [|s0 [|s1 [|? ?]]]; simpl in Hlen; try lia.
  set (u := mkT sid off [M; D] [s0; s1]).
  unfold Etude1.one_dim_vectorized.
  rewrite bind_unfold, zeros_eq. cbv beta iota.
  rewrite bind_unfold. unfold for_range.
  destruct M as [|M'].
  - erewrite (for_each_raise_at _ 0 N 0); [done|lia|reflexivity|].
    cbv beta. by rewrite bind_unfold, (select_out _ u 0 [D] 0).
  - assert (M' = 0) as -> by lia.
    match goal with |- context [for_each _ ?body ?h0] =>
      destruct (row_pipeline
                  (fun d5 => setrow (mkT (length h) 0 [N; N]
                                       (contiguous_strides [N; N])) 0 d5)
                  h0 sid off 1 D s0 s1 0)
        as (sq & final & Erow & _ & _); [lia|];
      destruct (setrow_broadcast h (replicate (numel [N; N]) fzero)
                  [sq; final] N 0 (length (h0 ++ [sq])))
        as (st' & Est); [lia|lia|]
    end.
    erewrite (for_each_raise_at _ 0 N 1); [done|lia| |].
    + cbn [Nat.sub seq for_each]. rewrite bind_unfold. cbv beta.
      unfold u. rewrite Erow. rewrite <- !app_assoc. cbn [app].
      rewrite <- !app_assoc in Est. cbn [app] in Est.
      rewrite Est. reflexivity.
    + cbv beta. by rewrite bind_unfold, (select_out _ u 1 [D] 1).
Qed.
End ProgramFacts.

(** ** Facts of IEEE arithmetic used by the claims *)

Section Rounding.
Variables prec emax : Z.

Lemma shr_1_nonneg r : (0 <= shr_m r)%Z -> (0 <= shr_m (shr_1 r))%Z.
Proof.
  destruct r as [m r s]. destruct m as [|[p|p|]|p]; simpl; lia.
Qed.

Lemma iter_shr_1_nonneg p : forall r,
  (0 <= shr_m r)%Z -> (0 <= shr_m (SpecFloat.iter_pos shr_1 p r))%Z.
Proof.
  induction p as [p IH|p IH|]; intros r Hr; simpl.
  - apply IH, IH, shr_1_nonneg, Hr.
  - apply IH, IH, Hr.
  - apply shr_1_nonneg, Hr.
Qed.

Lemma shr_fexp_nonneg m e l :
  (0 <= m)%Z -> (0 <= shr_m (fst (shr_fexp prec emax m e l)))%Z.
Proof.
  intros Hm. unfold shr_fexp, shr.
  assert (Hrec : (0 <= shr_m (shr_record_of_loc m l))%Z).
  { destruct l as [|[]]; simpl; done. }
  destruct (_ - e)%Z; simpl; try done.
  by apply iter_shr_1_nonneg.
Qed.

Lemma round_nearest_even_nonneg m l :
  (0 <= m)%Z -> (0 <= round_nearest_even m l)%Z.
Proof.
  intros Hm. destruct l as [|[]]; simpl; try lia.
  destruct (Z.even m); lia.
Qed.

(** Rounding never changes the sign ... *)
Lemma binary_round_aux_cases sx m e l :
  match binary_round_aux prec emax sx m e l with
  | S754_zero s | S754_infinity s | S754_finite s _ _ => s = sx
  | S754_nan => True
  end.
Proof.
  unfold binary_round_aux.
  destruct (shr_fexp prec emax m e l) as [mrs' e'].
  destruct (shr_fexp prec emax _ e' loc_Exact) as [mrs'' e''].
  destruct (shr_m mrs''); [done| |done].
  by destruct (_ <=? _)%Z.
Qed.

(** ... and a non-negative mantissa never rounds to NaN. *)
Lemma binary_round_aux_not_nan sx m e l :
  (0 <= m)%Z -> binary_round_aux prec emax sx m e l <> S754_nan.
Proof.
  intros Hm. unfold binary_round_aux.
  destruct (shr_fexp prec emax m e l) as [mrs' e'] eqn:E1.
  destruct (shr_fexp prec emax _ e' loc_Exact) as [mrs'' e''] eqn:E2.
  assert (0 <= shr_m mrs'')%Z as Hnn.
  { change mrs'' with (fst (mrs'', e'')). rewrite <- E2.
    apply shr_fexp_nonneg, round_nearest_even_nonneg.
    change mrs' with (fst (mrs', e')). rewrite <- E1.
    by apply shr_fexp_nonneg. }
  destruct (shr_m mrs''); [done| |lia].
  by destruct (_ <=? _)%Z.
Qed.

Lemma binary_round_aux_opp sx m e l :
  binary_round_aux prec emax (negb sx) m e l
  = SFopp (binary_round_aux prec emax sx m e l).
Proof.
  unfold binary_round_aux.
  destruct (shr_fexp prec emax m e l) as [mrs' e'].
  destruct (shr_fexp prec emax _ e' loc_Exact) as [mrs'' e''].
  destruct (shr_m mrs''); [done| |done].
  by destruct (_ <=? _)%Z.
Qed.

Lemma binary_round_opp sx m e :
  binary_round prec emax (negb sx) m e = SFopp (binary_round prec emax sx m e).
Proof.
  unfold binary_round. destruct (shl_align _ _ _) as [mz ez].
  apply binary_round_aux_opp.
Qed.

Lemma binary_normalize_opp z e :
  binary_normalize prec emax (- z) e false
  = SFopp (binary_normalize prec emax z e false)
  \/ z = 0%Z.
Proof.
  destruct z as [|p|p]; simpl; [by right| |]; left.
  - apply (binary_round_opp false).
  - change true with (negb false). rewrite (binary_round_opp false p e).
    by destruct (binary_round _ _ _ _ _) as [[]|[]| |[] ? ?].
Qed.

Lemma binary_normalize_cases z e :
  match binary_normalize prec emax z e false with
  | S754_zero s | S754_infinity s | S754_finite s _ _ => s = (z <? 0)%Z
  | S754_nan => False
  end.
Proof.
  destruct z as [|p|p]; simpl; [done| |]; unfold binary_round;
    destruct (shl_align _ _ _) as [mz ez].
  - pose proof (binary_round_aux_cases false (Zpos mz) ez loc_Exact) as Hc.
    pose proof (binary_round_aux_not_nan false (Zpos mz) ez loc_Exact) as Hn.
    destruct (binary_round_aux _ _ _ _ _ _); try done. apply Hn; [lia|done].
  - pose proof (binary_round_aux_cases true (Zpos mz) ez loc_Exact) as Hc.
    pose proof (binary_round_aux_not_nan true (Zpos mz) ez loc_Exact) as Hn.
    destruct (binary_round_aux _ _ _ _ _ _); try done. apply Hn; [lia|done].
Qed.
End Rounding.

Section Binary32.
Import F32.

Lemma f32_sub_self x : is_finite x = true -> sub x x = zero.
Proof.
  destruct x as [[]|[]| |s m e]; try done. intros _.
  cbv beta iota zeta delta [sub SFsub]. by rewrite Z.sub_diag.
Qed.

Lemma f32_mul_comm x y : mul x y = mul y x.
Proof.
  destruct x as [[]|[]| |[] mx ex], y as [[]|[]| |[] my ey]; try reflexivity;
    unfold mul, SFmul; cbn [xorb]; by rewrite Pos.mul_comm, Z.add_comm.
Qed.

Lemma f32_mul_opp_self x : mul (SFopp x) (SFopp x) = mul x x.
Proof. by destruct x as [[]|[]| |[] m e]. Qed.

Lemma f32_sub_antisym a b :
  sub a b = SFopp (sub b a) \/ (sub a b = zero /\ sub b a = zero).
Proof.
  destruct a as [[]|[]| |sa ma ea], b as [[]|[]| |sb mb eb];
    try (by left); try (by right);
    try (destruct sa; by left); try (destruct sb; by left).
  cbv beta iota zeta delta [sub SFsub]. rewrite (Z.min_comm eb ea).
  set (A := cond_Zopp sa _). set (B := cond_Zopp sb _).
  destruct (binary_normalize_opp prec emax (B - A) (Z.min ea eb)) as [Ho|Hz].
  - left. rewrite <- Ho. f_equal. lia.
  - right. replace (A - B)%Z with 0%Z by lia. rewrite Hz. done.
Qed.

(** Squared differences do not depend on the order of the two points. *)
Lemma f32_sq_sub_comm a b :
  mul (sub a b) (sub a b) = mul (sub b a) (sub b a).
Proof.
  destruct (f32_sub_antisym a b) as [->|[-> ->]]; [|done].
  apply f32_mul_opp_self.
Qed.

Lemma f32_add_zero_sq x : add zero (mul x x) = mul x x.
Proof.
  destruct x as [[]|[]| |s m e]; try reflexivity.
  unfold mul, SFmul.
  pose proof (binary_round_aux_cases prec emax (xorb s s)
                (Z.pos (m * m)) (e + e) loc_Exact) as Hc.
  rewrite xorb_nilpotent in *.
  by destruct (binary_round_aux _ _ _ _ _ _) as [s'|s'| |s' m' e']; subst.
Qed.

Lemma f32_sub_not_nan a b :
  is_finite a = true -> is_finite b = true -> sub a b <> S754_nan.
Proof.
  destruct a as [[]|[]| |sa ma ea], b as [[]|[]| |sb mb eb]; try done;
    intros _ _.
  cbv beta iota zeta delta [sub SFsub].
  match goal with |- binary_normalize _ _ ?z ?e _ <> _ =>
    pose proof (binary_normalize_cases prec emax z e) as Hc
  end.
  by destruct (binary_normalize _ _ _ _ _).
Qed.

Lemma f32_sq_nonneg x : x <> S754_nan -> is_nonneg (mul x x) = true.
Proof.
  destruct x as [[]|[]| |s m e]; try done. intros _.
  unfold mul, SFmul.
  pose proof (binary_round_aux_cases prec emax (xorb s s)
                (Z.pos (m * m)) (e + e) loc_Exact) as Hc.
  pose proof (binary_round_aux_not_nan prec emax (xorb s s)
                (Z.pos (m * m)) (e + e) loc_Exact) as Hn.
  rewrite xorb_nilpotent in *.
  destruct (binary_round_aux _ _ _ _ _ _) as [s'|s'| |s' m' e']; subst; try done.
  exfalso. apply Hn; [lia|done].
Qed.

Lemma f32_add_nonneg x y :
  is_nonneg x = true -> is_nonneg y = true -> is_nonneg (add x y) = true.
Proof.
  destruct x as [[]|[]| |[] mx ex], y as [[]|[]| |[] my ey]; try done;
    intros _ _.
  cbv beta iota zeta delta [add SFadd].
  match goal with |- is_nonneg (binary_normalize _ _ ?z ?e _) = _ =>
    pose proof (binary_normalize_cases prec emax z e) as Hc;
    assert ((z <? 0)%Z = false) as Hz by (apply Z.ltb_ge; simpl; lia)
  end.
  rewrite Hz in Hc.
  by destruct (binary_normalize _ _ _ _ _); subst.
Qed.

Lemma f32_sqrt_nonneg x : is_nonneg x = true -> is_nonneg (sqrt x) = true.
Proof.
  destruct x as [s|[]| |[] m e]; try done. intros _.
  unfold sqrt, SFsqrt, SFsqrt_core_binary.
  match goal with |- context [Z.sqrtrem ?n] =>
    pose proof (Z.sqrtrem_sqrt n) as Hq;
    pose proof (Z.sqrt_nonneg n) as Hnn;
    destruct (Z.sqrtrem n) as [q r]
  end.
  simpl in Hq. subst q.
  match goal with |- is_nonneg (binary_round_aux _ _ ?s ?m ?e ?l) = _ =>
    pose proof (binary_round_aux_cases prec emax s m e l) as Hc;
    pose proof (binary_round_aux_not_nan prec emax s m e l Hnn) as Hn
  end.
  by destruct (binary_round_aux _ _ _ _ _ _); subst.
Qed.

Lemma f32_scale_nonpos x :
  is_nonneg x = true -> is_nonpos (mul x minus_quarter) = true.
Proof.
  destruct x as [[]|[]| |[] m e]; try done. intros _.
  unfold mul, minus_quarter, SFmul.
  match goal with |- is_nonpos (binary_round_aux _ _ ?s ?m ?e ?l) = _ =>
    pose proof (binary_round_aux_cases prec emax s m e l) as Hc;
    pose proof (binary_round_aux_not_nan prec emax s m e l) as Hn
  end.
  destruct (binary_round_aux _ _ _ _ _ _); simpl in Hc; subst; try done.
  exfalso. apply Hn; [lia|done].
Qed.

(** IEEE comparison answers "equal" on two copies of anything but NaN. *)
Lemma f32_eqb_refl x : x <> S754_nan -> SFeqb x x = true.
Proof.
  destruct x as [[]|[]| |[] m e]; try done; intros _;
    unfold SFeqb, SFcompare;
    by rewrite Z.compare_refl, Pos.compare_cont_refl.
Qed.

Lemma clamp_unit_range x : in_unit_closed (clamp_unit x) = true.
Proof.
  unfold clamp_unit, in_unit_closed.
  destruct (SFleb x one) eqn:E1; [|done].
  destruct (SFleb zero x) eqn:E2; [|done].
  by rewrite E1, E2.
Qed.

(** The reference exponential meets the assumptions on [exp]. *)
Lemma exp32_ok : exp_ok exp32.
Proof.
  split.
  - done.
  - done.
  - intros [[]|[]| |[] m e]; try done. intros _.
    unfold exp32. destruct (8 <=? e)%Z; [done|].
    apply clamp_unit_range.
Qed.

Lemma square_at_nonneg x : (0 <= square_at x)%Z.
Proof. destruct x; simpl; try lia. by apply Z.shiftl_nonneg. Qed.

Lemma sum_squares_nonneg l : (0 <= fold_right Z.add 0 (map square_at l))%Z.
Proof.
  induction l as [|x l IH]; simpl; [lia|].
  pose proof (square_at_nonneg x). lia.
Qed.

Lemma norm_once_abs l : norm_once (map SFabs l) = norm_once l.
Proof.
  unfold norm_once.
  assert (existsb is_nan (map SFabs l) = existsb is_nan l) as ->.
  { induction l as [|x l IH]; simpl; [done|]. rewrite IH. by destruct x. }
  assert (existsb is_inf (map SFabs l) = existsb is_inf l) as ->.
  { induction l as [|x l IH]; simpl; [done|]. rewrite IH. by destruct x. }
  assert (map square_at (map SFabs l) = map square_at l) as ->; [|done].
  induction l as [|x l IH]; simpl; [done|]. rewrite IH. by destruct x.
Qed.

(** The reference norm meets the assumptions on the norm. *)
Lemma norm_once_ok : norm_ok norm_once.
Proof.
  split.
  - reflexivity.
  - intros l Hl. unfold norm_once.
    destruct (existsb is_nan l) eqn:En.
    { apply existsb_exists in En as (x & Hx & Hn).
      by destruct x. }
    destruct (existsb is_inf l); [done|].
    apply f32_sqrt_nonneg.
    pose proof (binary_normalize_cases prec emax
                  (fold_right Z.add 0%Z (map square_at l)) (-298)) as Hc.
    assert ((fold_right Z.add 0 (map square_at l) <? 0)%Z = false) as Hz
      by (apply Z.ltb_ge, sum_squares_nonneg).
    rewrite Hz in Hc.
    by destruct (binary_normalize _ _ _ _ _); subst.
  - intros l Hl. unfold norm_once.
    assert (existsb is_nan l = true) as ->; [|done].
    apply existsb_exists. by exists S754_nan.
  - apply norm_once_abs.
Qed.

Lemma norm_once_four s : norm_once [S754_finite s 8388608 (-21); zero] = four.
Proof. by destruct s. Qed.

(** So does the pipeline of the vectorized variants, taken as a norm: the
    assumptions do not tell the two apart. *)
Lemma f32_add_nan_any x : add x S754_nan = S754_nan /\ add S754_nan x = S754_nan.
Proof. by destruct x. Qed.

Lemma fold_add_nan xs : fold_left add xs S754_nan = S754_nan.
Proof.
  induction xs as [|x xs IH]; cbn [fold_left]; [done|].
  by rewrite (proj2 (f32_add_nan_any x)).
Qed.

Lemma fold_add_nonneg xs : forall acc,
  is_nonneg acc = true -> Forall (fun x => is_nonneg x = true) xs ->
  is_nonneg (fold_left add xs acc) = true.
Proof.
  induction xs as [|x xs IH]; intros acc Hacc Hxs; cbn [fold_left]; [done|].
  inversion Hxs; subst. apply IH; [|done]. by apply f32_add_nonneg.
Qed.

Lemma f32_sq_abs x : mul (SFabs x) (SFabs x) = mul x x.
Proof. by destruct x as [[]|[]| |[] m e]. Qed.

Lemma pipeline_norm_ok exp : norm_ok (@pipeline_norm _ (ops exp)).
Proof.
  split; unfold pipeline_norm, fsum, fsquare; cbn [fsqrt fadd fmul fzero ops].
  - reflexivity.
  - intros l Hl. apply f32_sqrt_nonneg, fold_add_nonneg; [done|].
    apply Forall_forall. intros y Hy.
    apply list_elem_of_fmap in Hy as (x & -> & Hx).
    apply f32_sq_nonneg. intros ->. apply Hl. by apply list_elem_of_In.
  - intros l Hl.
    assert (forall acc, fold_left add (map (fun x => mul x x) l) acc = S754_nan)
      as ->; [|done].
    induction l as [|x l IH]; intros acc; [done|]. cbn [map fold_left].
    destruct Hl as [->|Hl]; [|by apply IH].
    change (mul S754_nan S754_nan) with S754_nan.
    rewrite (proj1 (f32_add_nan_any acc)). apply fold_add_nan.
  - intros l. do 2 f_equal. rewrite map_map.
    apply map_ext. intros x. apply f32_sq_abs.
Qed.
End Binary32.

(** ** What every variant returns *)

Section Variants.
Context {F : Type} `{Scalar F} `{Norm F}.
Implicit Types (h : heap F) (u r : tensor).

Lemma naive_eq h u N s :
  t_shape u = N :: s -> naive u h = Etude1.naive u N h.
Proof. intros Hs. unfold naive, Etude1.naive, shape0. by rewrite Hs. Qed.

Lemma one_dim_vectorized_eq h u N s :
  t_shape u = N :: s -> one_dim_vectorized u h = Etude1.one_dim_vectorized u N h.
Proof.
  intros Hs. unfold one_dim_vectorized, Etude1.one_dim_vectorized, shape0.
  by rewrite Hs.
Qed.

(** On an [M] x [D] array each variant allocates, never touches what was
    there, and returns an [M] x [M] matrix: [naive] that of the scaled
    library norms, the other two that of the pipeline. *)
Lemma variant_spec f h u M D :
  In f variants -> wf_tensor h u -> t_shape u = [M; D] ->
  exists r new a,
    f u h = Ok (r, h ++ new)
    /\ t_shape r = [M; M]
    /\ (a = dist_affinity h u D \/ a = affinity h u D)
    /\ forall i j, i < M -> j < M -> load (h ++ new) r [i; j] = a i j.
Proof.
  intros [<-|[<-|[<-|[]]]] Hwf Hs.
  - rewrite (naive_eq _ _ _ _ Hs).
    destruct (naive_spec h u M D M Hwf Hs) as (r & st & ? & ? & ?); [done|].
    exists r, [st], (dist_affinity h u D). auto.
  - rewrite (one_dim_vectorized_eq _ _ _ _ Hs).
    destruct (one_dim_vectorized_spec h u M D Hwf Hs) as (r & new & ? & ? & ?).
    exists r, new, (affinity h u D). auto.
  - destruct (fully_vectorized_spec h u M D 0 Hwf Hs) as (r & new & ? & ? & ?).
    exists r, new, (affinity h u D). auto.
Qed.

Lemma length_to_list h r : length (to_list h r) = numel (t_shape r).
Proof. unfold to_list. by rewrite length_fmap, length_indices. Qed.
End Variants.

(** * The claims *)

Section GenericClaims.
Context {F : Type} `{Scalar F} `{Norm F}.
Implicit Types (h : heap F) (u r : tensor).

(** C6: on the empty point set (shape 0 x 2) every variant returns a
    0 x 0 matrix, and does not raise. *)
Theorem empty_input f h u :
  In f variants -> wf_tensor h u -> t_shape u = [0; 2] ->
  exists r h',
    f u h = Ok (r, h') /\ t_shape r = [0; 0] /\ to_list h' r = [].
Proof.
  intros Hf Hwf Hs.
  destruct (variant_spec f h u 0 2 Hf Hwf Hs) as (r & new & a & E & S & _).
  exists r, (h ++ new). split; [done|]. split; [done|].
  unfold to_list. by rewrite S.
Qed.

(** C7, as amended: no variant checks the number of coordinates.  On an
    array of shape N x D, for any D, each variant returns an N x N matrix
    and does not raise. *)
Theorem any_coordinate_count f h u N D :
  In f variants -> wf_tensor h u -> t_shape u = [N; D] ->
  exists r h',
    f u h = Ok (r, h') /\ t_shape r = [N; N]
    /\ length (to_list h' r) = N * N.
Proof.
  intros Hf Hwf Hs.
  destruct (variant_spec f h u N D Hf Hwf Hs) as (r & new & a & E & S & _).
  exists r, (h ++ new). split; [done|]. split; [done|].
  by rewrite length_to_list, S, numel_2.
Qed.

(** C9: every variant leaves the input alone.  The store after the call
    is the store before it followed by new storages, so that [u], and any
    other tensor that was there, reads as before. *)
Theorem input_unchanged f h u N :
  In f variants -> wf_tensor h u -> t_shape u = [N; 2] ->
  exists r new,
    f u h = Ok (r, h ++ new)
    /\ (forall idx, load (h ++ new) u idx = load h u idx)
    /\ to_list (h ++ new) u = to_list h u.
Proof.
  intros Hf Hwf Hs.
  destruct (variant_spec f h u N 2 Hf Hwf Hs) as (r & new & a & E & S & _).
  exists r, new. split; [done|].
  assert (forall idx, load (h ++ new) u idx = load h u idx) as Hl.
  { intros idx. apply load_app. apply Hwf. }
  split; [done|]. unfold to_list. apply list_fmap_ext. intros; apply Hl.
Qed.

End GenericClaims.

Section Binary32Claims.
Import F32.
Variable exp : spec_float -> spec_float.
Variable norm : list spec_float -> spec_float.

#[local] Hint Extern 0 (Scalar spec_float) =>
  exact (F32.ops exp) : typeclass_instances.
#[local] Hint Extern 0 (Norm spec_float) =>
  exact (Build_Norm _ norm) : typeclass_instances.

Implicit Types (h : heap spec_float) (u r : tensor).

(** The two entries for points with two coordinates, operation by
    operation. *)
Lemma affinity_2 h u i j :
  affinity h u 2 i j
  = exp (mul (sqrt (add (add zero
               (mul (sub (load h u [i; 0]) (load h u [j; 0]))
                    (sub (load h u [i; 0]) (load h u [j; 0]))))
               (mul (sub (load h u [i; 1]) (load h u [j; 1]))
                    (sub (load h u [i; 1]) (load h u [j; 1])))))
           minus_quarter).
Proof. reflexivity. Qed.

Lemma dist_affinity_2 h u i j :
  dist_affinity h u 2 i j
  = exp (mul (norm [sub (load h u [i; 0]) (load h u [j; 0]);
                    sub (load h u [i; 1]) (load h u [j; 1])])
           minus_quarter).
Proof. reflexivity. Qed.

Lemma f32_abs_sub a b : SFabs (sub a b) = SFabs (sub b a).
Proof.
  destruct (f32_sub_antisym a b) as [->|[-> ->]]; [|done].
  by destruct (sub b a).
Qed.

(** A norm that ignores signs is the same for [p - q] and [q - p]. *)
Lemma norm_swap a b c d :
  (forall l, norm (map SFabs l) = norm l) ->
  norm [sub a b; sub c d] = norm [sub b a; sub d c].
Proof.
  intros Habs. rewrite <- (Habs [sub a b; sub c d]), <- (Habs [sub b a; sub d c]).
  cbn [map]. by rewrite (f32_abs_sub a b), (f32_abs_sub c d).
Qed.

Lemma in_unit_closed_not_nan x : in_unit_closed x = true -> x <> S754_nan.
Proof. by intros Hx ->. Qed.

(** For finite coordinates both entries lie in [0, 1]. *)
Lemma entry_in_closed_unit h u N a i j :
  (forall x, is_nonpos x = true -> in_unit_closed (exp x) = true) ->
  (forall l, ~ In S754_nan l -> is_nonneg (norm l) = true) ->
  finite_points exp h u N ->
  a = dist_affinity h u 2 \/ a = affinity h u 2 ->
  i < N -> j < N -> in_unit_closed (a i j) = true.
Proof.
  intros Hexp Hnn Hfin [-> | ->] Hi Hj.
  - rewrite dist_affinity_2. apply Hexp, f32_scale_nonpos, Hnn.
    intros [Hn|[Hn|[]]]; revert Hn;
      apply f32_sub_not_nan; apply Hfin; lia.
  - rewrite affinity_2. apply Hexp, f32_scale_nonpos, f32_sqrt_nonneg.
    repeat apply f32_add_nonneg; [done| |];
      apply f32_sq_nonneg, f32_sub_not_nan; apply Hfin; lia.
Qed.

(** Both entries are the same for (i, j) and (j, i). *)
Lemma entry_swap h u a i j :
  (forall l, norm (map SFabs l) = norm l) ->
  a = dist_affinity h u 2 \/ a = affinity h u 2 ->
  a i j = a j i.
Proof.
  intros Habs [-> | ->].
  - rewrite !dist_affinity_2. by rewrite (norm_swap _ _ _ _ Habs).
  - rewrite !affinity_2.
    by rewrite (f32_sq_sub_comm (load h u [i; 0])),
               (f32_sq_sub_comm (load h u [i; 1])).
Qed.

Lemma dist_affinity_entry h u i j :
  dist_affinity h u 2 i j
  = dist_entry exp norm (point_of exp h u i) (point_of exp h u j).
Proof.
  rewrite dist_affinity_2.
  unfold dist_entry, library_distance, point_of. cbn [fst snd].
  by rewrite f32_mul_comm.
Qed.

Lemma affinity_entry h u i j :
  affinity h u 2 i j
  = spec_entry exp (point_of exp h u i) (point_of exp h u j).
Proof.
  rewrite affinity_2.
  unfold spec_entry, euclidean_distance, point_of. cbn [fst snd].
  by rewrite f32_add_zero_sq, f32_mul_comm.
Qed.



(** C3: for finite coordinates, every diagonal entry of the matrix
    returned by each variant is exactly 1.0, given that exp(+-0) = 1 and
    that the norm of the zero vector is 0; for N = 1 the matrix is the
    single entry 1.0. *)
Theorem diagonal_is_one f h u N :
  (forall s, exp (S754_zero s) = one) ->
  norm [zero; zero] = zero ->
  In f variants -> wf_tensor h u -> t_shape u = [N; 2] ->
  finite_points exp h u N ->
  exists r h',
    f u h = Ok (r, h') /\ t_shape r = [N; N]
    /\ (forall i, i < N -> load h' r [i; i] = one)
    /\ (N = 1 -> to_list h' r = [one]).
Proof.
  intros Hexp Hnorm Hf Hwf Hs Hfin.
  destruct (variant_spec f h u N 2 Hf Hwf Hs) as (r & new & a & E & S & Ha & L).
  exists r, (h ++ new). split; [done|]. split; [done|].
  assert (forall i, i < N -> load (h ++ new) r [i; i] = one) as Hd.
  { intros i Hi. rewrite L by done. destruct Ha as [-> | ->].
    - rewrite dist_affinity_2, !f32_sub_self by (apply Hfin; lia).
      rewrite Hnorm. apply Hexp.
    - rewrite affinity_2, !f32_sub_self by (apply Hfin; lia). apply Hexp. }
  split; [done|]. intros ->. unfold to_list. rewrite S.
  change (indices [1; 1]) with [[0; 0]]. simpl. by rewrite Hd by lia.
Qed.

(** C4, as amended: the matrix returned by each variant is symmetric
    wherever it is not NaN: an entry (i, j) that is not NaN is the same
    float as entry (j, i) and compares equal to it, given that the norm
    ignores the signs of the differences.  For finite coordinates no entry
    is NaN, so that the whole matrix is symmetric under the IEEE
    comparison. *)
Theorem affinity_symmetric f h u N :
  (forall l, norm (map SFabs l) = norm l) ->
  In f variants -> wf_tensor h u -> t_shape u = [N; 2] ->
  exists r h',
    f u h = Ok (r, h') /\ t_shape r = [N; N]
    /\ (forall i j, i < N -> j < N ->
          load h' r [i; j] <> S754_nan ->
          load h' r [j; i] = load h' r [i; j]
          /\ SFeqb (load h' r [i; j]) (load h' r [j; i]) = true)
    /\ ((forall x, is_nonpos x = true -> in_unit_closed (exp x) = true) ->
        (forall l, ~ In S754_nan l -> is_nonneg (norm l) = true) ->
        finite_points exp h u N ->
        forall i j, i < N -> j < N ->
          SFeqb (load h' r [i; j]) (load h' r [j; i]) = true).
Proof.
  intros Habs Hf Hwf Hs.
  destruct (variant_spec f h u N 2 Hf Hwf Hs) as (r & new & a & E & S & Ha & L).
  exists r, (h ++ new). split; [done|]. split; [done|].
  assert (forall i j, i < N -> j < N ->
            load (h ++ new) r [j; i] = load (h ++ new) r [i; j]) as Hsym.
  { intros i j Hi Hj. rewrite !L by done. by apply (entry_swap h u). }
  split.
  - intros i j Hi Hj Hnan. split; [by apply Hsym|].
    rewrite (Hsym i j) by done. by apply f32_eqb_refl.
  - intros Hexp Hnn Hfin i j Hi Hj.
    rewrite (Hsym i j) by done. apply f32_eqb_refl.
    rewrite L by done. apply in_unit_closed_not_nan.
    by apply (entry_in_closed_unit h u N).
Qed.

(** C5, as amended: for finite coordinates every entry of the matrix
    returned by each variant lies in the closed interval [0, 1], given
    that exp maps (-oo, 0] into [0, 1] and that the norm of numbers is not
    negative. *)
Theorem entries_in_closed_unit f h u N :
  (forall x, is_nonpos x = true -> in_unit_closed (exp x) = true) ->
  (forall l, ~ In S754_nan l -> is_nonneg (norm l) = true) ->
  In f variants -> wf_tensor h u -> t_shape u = [N; 2] ->
  finite_points exp h u N ->
  exists r h',
    f u h = Ok (r, h') /\ t_shape r = [N; N]
    /\ forall i j, i < N -> j < N ->
         in_unit_closed (load h' r [i; j]) = true.
Proof.
  intros Hexp Hnn Hf Hwf Hs Hfin.
  destruct (variant_spec f h u N 2 Hf Hwf Hs) as (r & new & a & E & S & Ha & L).
  exists r, (h ++ new). split; [done|]. split; [done|].
  intros i j Hi Hj. rewrite L by done.
  by apply (entry_in_closed_unit h u N).
Qed.

(** C8: for the points (0,0) and (4,0) the off-diagonal entries returned by
    each variant are exp(-1); for two points at (0,0) every entry is
    exp(0) = 1.0.  Of the library this takes exp(+-0) = 1, and that the
    norm of (0, 0) is 0 and the norm of (+-4, 0) is 4. *)
Theorem known_values f h u :
  (forall s, exp (S754_zero s) = one) ->
  norm [zero; zero] = zero ->
  (forall s, norm [S754_finite s 8388608 (-21); zero] = four) ->
  In f variants -> wf_tensor h u -> t_shape u = [2; 2] ->
  load h u [0; 0] = zero -> load h u [0; 1] = zero ->
  load h u [1; 1] = zero ->
  exists r h',
    f u h = Ok (r, h') /\ t_shape r = [2; 2]
    /\ (load h u [1; 0] = four ->
        load h' r [0; 1] = exp minus_one /\ load h' r [1; 0] = exp minus_one)
    /\ (load h u [1; 0] = zero ->
        forall i j, i < 2 -> j < 2 ->
          load h' r [i; j] = exp zero /\ exp zero = one).
Proof.
  intros Hexp Hn0 Hn4 Hf Hwf Hs H00 H01 H11.
  destruct (variant_spec f h u 2 2 Hf Hwf Hs) as (r & new & a & E & S & Ha & L).
  exists r, (h ++ new). split; [done|]. split; [done|]. split.
  - intros H10. rewrite !L by lia. destruct Ha as [-> | ->].
    + rewrite !dist_affinity_2, H00, H01, H10, H11.
      change (sub zero four) with (S754_finite true 8388608 (-21)).
      change (sub four zero) with (S754_finite false 8388608 (-21)).
      change (sub zero zero) with zero. rewrite !Hn4. split; reflexivity.
    + rewrite !affinity_2, H00, H01, H10, H11. split; reflexivity.
  - intros H10 i j Hi Hj. rewrite L by lia.
    split; [|apply (Hexp false)].
    transitivity one; [|symmetry; apply (Hexp false)].
    destruct Ha as [-> | ->].
    + rewrite dist_affinity_2.
      assert (i = 0 \/ i = 1) as [-> | ->] by lia;
        assert (j = 0 \/ j = 1) as [-> | ->] by lia;
        rewrite ?H00, ?H01, ?H10, ?H11;
        change (sub zero zero) with zero; rewrite Hn0; apply (Hexp true).
    + rewrite affinity_2.
      assert (i = 0 \/ i = 1) as [-> | ->] by lia;
        assert (j = 0 \/ j = 1) as [-> | ->] by lia;
        rewrite ?H00, ?H01, ?H10, ?H11; apply (Hexp true).
Qed.

(** C10, as amended: in the first notebook [fully_vectorized u N] ignores
    [N] and returns an M x M matrix for [u] of shape M x 2.  [naive u N]
    returns the leading N x N block of its own matrix (exp(-0.25 x the
    library's norm of the differences)) when N <= M and raises IndexError
    when N > M.  [one_dim_vectorized u N] returns the matrix of the pipeline
    when N = M and the empty matrix when N = 0; otherwise its first row
    assignment raises a shape error (RuntimeError) when M >= 2, and the
    access [u[M]] raises IndexError when M <= 1 and N > M. *)
Theorem size_argument h u M :
  wf_tensor h u -> t_shape u = [M; 2] ->
  (forall N1 N2,
      Etude1.fully_vectorized u N1 h = Etude1.fully_vectorized u N2 h
      /\ result_shape (Etude1.fully_vectorized u N1 h) = Some [M; M])
  /\ (forall N, N <= M ->
        exists r h',
          Etude1.naive u N h = Ok (r, h') /\ t_shape r = [N; N]
          /\ forall i j, i < N -> j < N ->
               load h' r [i; j]
               = dist_entry exp norm (point_of exp h u i) (point_of exp h u j))
  /\ (forall N, M < N -> Etude1.naive u N h = Raise IndexError)
  /\ (exists r h',
        Etude1.one_dim_vectorized u M h = Ok (r, h') /\ t_shape r = [M; M]
        /\ forall i j, i < M -> j < M ->
             load h' r [i; j]
             = spec_entry exp (point_of exp h u i) (point_of exp h u j))
  /\ result_shape (Etude1.one_dim_vectorized u 0 h) = Some [0; 0]
  /\ (forall N, 0 < N -> N <> M -> 2 <= M ->
        Etude1.one_dim_vectorized u N h = Raise RuntimeError)
  /\ (forall N, M < N -> M <= 1 ->
        Etude1.one_dim_vectorized u N h = Raise IndexError).
Proof.
  intros Hwf Hs. repeat split.
  - destruct (fully_vectorized_spec h u M 2 N1 Hwf Hs) as (r & new & -> & S & _).
    simpl. by rewrite S.
  - intros N HN.
    destruct (naive_spec h u M 2 N Hwf Hs HN) as (r & st & E & S & L).
    exists r, (h ++ [st]). split; [done|]. split; [done|].
    intros i j Hi Hj. rewrite L by done. apply dist_affinity_entry.
  - intros N HN. by apply (naive_out_of_range h u M 2).
  - destruct (one_dim_vectorized_spec h u M 2 Hwf Hs) as (r & new & E & S & L).
    exists r, (h ++ new). split; [done|]. split; [done|].
    intros i j Hi Hj. rewrite L by done. apply affinity_entry.
  - intros N ? ? ?. by apply (one_dim_shape_error h u M 2).
  - intros N ? ?. by apply (one_dim_index_error h u M 2).
Qed.

(** The zero entries of far apart points do not depend on how the
    exponential rounds: exp(-oo) = 0 is enough. *)
Lemma far_points_entries :
  exp (S754_infinity true) = zero ->
  result_list (fully_vectorized (Examples.array [2; 2]) Examples.far_points)
  = Some [exp (S754_zero true); zero; zero; exp (S754_zero true)].
Proof. intros Hinf. vm_compute. vm_compute in Hinf. by rewrite !Hinf. Qed.
End Binary32Claims.

(** ** The claims on concrete inputs, and where they fail *)

Section OnExamples.
Import F32 Examples.

#[local] Existing Instance ops32.
#[local] Existing Instance norm32.

Lemma array_wf (h : heap spec_float) shape :
  0 < length h -> wf_tensor h (array shape).
Proof.
  intros Hh. split; [exact Hh|]. simpl.
  induction shape as [|n s IH]; simpl; [reflexivity|]. by rewrite IH.
Defined.

Lemma in_variants_naive : In naive variants.
Proof. left; reflexivity. Defined.

Lemma in_variants_one_dim : In one_dim_vectorized variants.
Proof. right; left; reflexivity. Defined.

Lemma in_variants_fully : In fully_vectorized variants.
Proof. right; right; left; reflexivity. Defined.

Lemma two_points_finite (h : heap spec_float) :
  forallb is_finite (to_list h (array [2; 2])) = true ->
  finite_points exp32 h (array [2; 2]) 2.
Proof.
  intros Hall i k Hi Hk.
  assert (In (load h (array [2; 2]) [i; k]) (to_list h (array [2; 2]))) as Hin.
  { unfold to_list. apply in_map.
    destruct i as [|[|i]], k as [|[|k]]; try lia; simpl; tauto. }
  rewrite forallb_forall in Hall. by apply Hall.
Defined.

(** Runs of the three variants with the reference exponential and norm. *)
Example run_two_points :
  result_list (naive (array [2; 2]) two_points)
  = Some [one; S754_finite false 12343986 (-25);
          S754_finite false 12343986 (-25); one]
  /\ result_list (one_dim_vectorized (array [2; 2]) two_points)
     = result_list (naive (array [2; 2]) two_points)
  /\ result_list (fully_vectorized (array [2; 2]) two_points)
     = result_list (naive (array [2; 2]) two_points).
Proof. repeat split; vm_compute; reflexivity. Qed.

Example run_coincident :
  result_list (fully_vectorized (array [2; 2]) coincident)
  = Some [one; one; one; one].
Proof. vm_compute; reflexivity. Qed.

(** The result for no point is laid out like an empty 0 x 0 tensor of the
    library: both strides are 1. *)
Example run_no_points :
  result_list (naive (array [0; 2]) no_points) = Some []
  /\ naive (array [0; 2]) no_points = Ok (mkT 1 0 [0; 0] [1; 1], [[]; []]).
Proof. split; vm_compute; reflexivity. Qed.

(** A NaN coordinate is not trapped: it reaches the result, where the IEEE
    comparison of the entry with itself answers false. *)
Example run_nan_point :
  result_list (fully_vectorized (array [1; 2]) nan_point) = Some [nan]
  /\ SFeqb nan nan = false.
Proof. split; vm_compute; reflexivity. Qed.

(** Only the views alias the input: the store after [fully_vectorized] is
    the old store, the squared differences, and the result. *)
Example run_store :
  exists sq res,
    fully_vectorized (array [2; 2]) two_points
    = Ok (mkT 2 0 [2; 2] [2; 1], two_points ++ [sq; res])
    /\ length sq = 8 /\ length res = 4.
Proof. eexists _, _. split; [vm_compute; reflexivity|]. split; reflexivity. Qed.

(** The distance of (0,0) and (2.75, 1.000732421875).  The squares are
    7.5625 and 1.001465380191803; in binary32 the second one rounds down
    and the sum of the two then falls halfway and rounds down again, while
    the exact sum rounds up. *)
Example run_tie_distance :
  norm_once [S754_finite false 11534336 (-22); S754_finite false 8394752 (-23)]
  = S754_finite false 12274318 (-22)
  /\ pipeline_norm
       [S754_finite false 11534336 (-22); S754_finite false 8394752 (-23)]
     = S754_finite false 12274317 (-22).
Proof. split; vm_compute; reflexivity. Qed.

(** Were the norm computed like the pipeline, square by square, [naive]
    would return the matrix of the vectorized variants on these points. *)
Example run_tie_points_rounded :
  @result_list _ ops32
    (@naive _ ops32 {| fnorm := pipeline_norm |} (array [2; 2]) tie_points)
  = result_list (fully_vectorized (array [2; 2]) tie_points).
Proof. vm_compute; reflexivity. Qed.





Lemma diagonal_is_one_witness :
  (forall s, exp32 (S754_zero s) = one)
  /\ norm_once [zero; zero] = zero
  /\ In naive variants
  /\ wf_tensor tie_points (array [2; 2]) /\ t_shape (array [2; 2]) = [2; 2]
  /\ finite_points exp32 tie_points (array [2; 2]) 2
  /\ exists r h',
      naive (array [2; 2]) tie_points = Ok (r, h')
      /\ t_shape r = [2; 2]
      /\ (forall i, i < 2 -> load h' r [i; i] = one)
      /\ (2 = 1 -> to_list h' r = [one]).
Proof.
  split; [reflexivity|]. split; [reflexivity|].
  split; [apply in_variants_naive|].
  split; [apply array_wf; simpl; lia|]. split; [reflexivity|].
  split; [apply two_points_finite; reflexivity|].
  apply (diagonal_is_one exp32 norm_once naive tie_points (array [2; 2]) 2);
    [reflexivity | reflexivity | apply in_variants_naive
    | apply array_wf; simpl; lia
    | reflexivity | apply two_points_finite; reflexivity].
Defined.

(** C4 fails as stated.  For the points (NaN,0) and (0,0) entries (0,1)
    and (1,0) of all three results are NaN, and a NaN does not compare
    equal to a NaN: result[0][1] == result[1][0] is false. *)
Lemma nan_entries_compare_unequal :
  t_shape (array [2; 2]) = [2; 2]
  /\ result_list (naive (array [2; 2]) nan_points)
     = Some [nan; nan; nan; one]
  /\ result_list (one_dim_vectorized (array [2; 2]) nan_points)
     = Some [nan; nan; nan; one]
  /\ result_list (fully_vectorized (array [2; 2]) nan_points)
     = Some [nan; nan; nan; one]
  /\ SFeqb nan nan = false.
Proof. repeat split; vm_compute; reflexivity. Qed.

Lemma affinity_symmetric_witness :
  (forall l, norm_once (map SFabs l) = norm_once l)
  /\ In naive variants
  /\ wf_tensor tie_points (array [2; 2]) /\ t_shape (array [2; 2]) = [2; 2]
  /\ exists r h',
      naive (array [2; 2]) tie_points = Ok (r, h')
      /\ t_shape r = [2; 2]
      /\ (forall i j, i < 2 -> j < 2 ->
            load h' r [i; j] <> S754_nan ->
            load h' r [j; i] = load h' r [i; j]
            /\ SFeqb (load h' r [i; j]) (load h' r [j; i]) = true)
      /\ ((forall x, is_nonpos x = true -> in_unit_closed (exp32 x) = true) ->
          (forall l, ~ In S754_nan l -> is_nonneg (norm_once l) = true) ->
          finite_points exp32 tie_points (array [2; 2]) 2 ->
          forall i j, i < 2 -> j < 2 ->
            SFeqb (load h' r [i; j]) (load h' r [j; i]) = true).
Proof.
  split; [apply norm_once_abs|]. split; [apply in_variants_naive|].
  split; [apply array_wf; simpl; lia|]. split; [reflexivity|].
  apply (affinity_symmetric exp32 norm_once naive tie_points (array [2; 2]) 2);
    [apply norm_once_abs | apply in_variants_naive
    | apply array_wf; simpl; lia | reflexivity].
Defined.

(** C5 fails as stated, in two ways.  The points (0,0) and (2^100,0) are
    finite, yet their squared distance overflows, the scaled distance is
    minus infinity, and entries (0,1) and (1,0) of all three results are
    exactly 0, outside (0, 1].  For (0,0) and (1000,0) nothing overflows:
    the scaled distance is -250 and the exponential underflows to 0. *)
Lemma open_unit_interval_fails :
  forallb is_finite (to_list far_points (array [2; 2])) = true
  /\ result_list (naive (array [2; 2]) far_points)
     = Some [one; zero; zero; one]
  /\ result_list (one_dim_vectorized (array [2; 2]) far_points)
     = Some [one; zero; zero; one]
  /\ result_list (fully_vectorized (array [2; 2]) far_points)
     = Some [one; zero; zero; one]
  /\ forallb is_finite (to_list distant_points (array [2; 2])) = true
  /\ result_list (fully_vectorized (array [2; 2]) distant_points)
     = Some [one; zero; zero; one]
  /\ in_unit zero = false.
Proof. repeat split; vm_compute; reflexivity. Qed.

Lemma entries_in_closed_unit_witness :
  (forall x, is_nonpos x = true -> in_unit_closed (exp32 x) = true)
  /\ (forall l, ~ In S754_nan l -> is_nonneg (norm_once l) = true)
  /\ In fully_vectorized variants
  /\ wf_tensor far_points (array [2; 2]) /\ t_shape (array [2; 2]) = [2; 2]
  /\ finite_points exp32 far_points (array [2; 2]) 2
  /\ exists r h',
      fully_vectorized (array [2; 2]) far_points = Ok (r, h')
      /\ t_shape r = [2; 2]
      /\ forall i j, i < 2 -> j < 2 ->
           in_unit_closed (load h' r [i; j]) = true.
Proof.
  split; [apply exp32_ok|]. split; [apply norm_once_ok|].
  split; [apply in_variants_fully|].
  split; [apply array_wf; simpl; lia|]. split; [reflexivity|].
  split; [apply two_points_finite; reflexivity|].
  apply (entries_in_closed_unit exp32 norm_once fully_vectorized far_points
           (array [2; 2]) 2);
    [apply exp32_ok | apply norm_once_ok | apply in_variants_fully
    | apply array_wf; simpl; lia
    | reflexivity | apply two_points_finite; reflexivity].
Defined.

Lemma empty_input_witness :
  In fully_vectorized variants
  /\ wf_tensor no_points (array [0; 2]) /\ t_shape (array [0; 2]) = [0; 2]
  /\ exists r h',
      fully_vectorized (array [0; 2]) no_points = Ok (r, h')
      /\ t_shape r = [0; 0] /\ to_list h' r = [].
Proof.
  split; [apply in_variants_fully|].
  split; [apply array_wf; simpl; lia|]. split; [reflexivity|].
  apply (empty_input fully_vectorized no_points (array [0; 2]));
    [apply in_variants_fully | apply array_wf; simpl; lia | reflexivity].
Defined.

(** C7 fails as stated: an array of two points with three coordinates is
    accepted by all three variants, which return a 2 x 2 matrix. *)
Lemma three_coordinates_accepted :
  t_shape (array [2; 3]) = [2; 3]
  /\ result_shape (naive (array [2; 3]) two_points_3d) = Some [2; 2]
  /\ result_shape (one_dim_vectorized (array [2; 3]) two_points_3d)
     = Some [2; 2]
  /\ result_shape (fully_vectorized (array [2; 3]) two_points_3d)
     = Some [2; 2].
Proof. repeat split; vm_compute; reflexivity. Qed.

Lemma any_coordinate_count_witness :
  In fully_vectorized variants
  /\ wf_tensor two_points_3d (array [2; 3]) /\ t_shape (array [2; 3]) = [2; 3]
  /\ exists r h',
      fully_vectorized (array [2; 3]) two_points_3d = Ok (r, h')
      /\ t_shape r = [2; 2]
      /\ length (to_list h' r) = 2 * 2.
Proof.
  split; [apply in_variants_fully|].
  split; [apply array_wf; simpl; lia|]. split; [reflexivity|].
  apply (any_coordinate_count fully_vectorized two_points_3d (array [2; 3]) 2 3);
    [apply in_variants_fully | apply array_wf; simpl; lia | reflexivity].
Defined.

Lemma known_values_witness :
  (forall s, exp32 (S754_zero s) = one)
  /\ norm_once [zero; zero] = zero
  /\ (forall s, norm_once [S754_finite s 8388608 (-21); zero] = four)
  /\ In naive variants
  /\ wf_tensor two_points (array [2; 2]) /\ t_shape (array [2; 2]) = [2; 2]
  /\ load two_points (array [2; 2]) [0; 0] = zero
  /\ load two_points (array [2; 2]) [0; 1] = zero
  /\ load two_points (array [2; 2]) [1; 1] = zero
  /\ exists r h',
      naive (array [2; 2]) two_points = Ok (r, h')
      /\ t_shape r = [2; 2]
      /\ (load two_points (array [2; 2]) [1; 0] = four ->
          load h' r [0; 1] = exp32 minus_one
          /\ load h' r [1; 0] = exp32 minus_one)
      /\ (load two_points (array [2; 2]) [1; 0] = zero ->
          forall i j, i < 2 -> j < 2 ->
            load h' r [i; j] = exp32 zero /\ exp32 zero = one).
Proof.
  split; [reflexivity|]. split; [reflexivity|].
  split; [apply norm_once_four|]. split; [apply in_variants_naive|].
  split; [apply array_wf; simpl; lia|].
  split; [reflexivity|]. split; [reflexivity|]. split; [reflexivity|].
  split; [reflexivity|].
  apply (known_values exp32 norm_once naive two_points (array [2; 2]));
    [reflexivity | reflexivity | apply norm_once_four
    | apply in_variants_naive | apply array_wf; simpl; lia
    | reflexivity | reflexivity | reflexivity | reflexivity].
Defined.

Lemma input_unchanged_witness :
  In fully_vectorized variants
  /\ wf_tensor two_points (array [2; 2]) /\ t_shape (array [2; 2]) = [2; 2]
  /\ exists r new,
      fully_vectorized (array [2; 2]) two_points = Ok (r, two_points ++ new)
      /\ (forall idx, load (two_points ++ new) (array [2; 2]) idx
                      = load two_points (array [2; 2]) idx)
      /\ to_list (two_points ++ new) (array [2; 2])
         = to_list two_points (array [2; 2]).
Proof.
  split; [apply in_variants_fully|].
  split; [apply array_wf; simpl; lia|]. split; [reflexivity|].
  apply (input_unchanged fully_vectorized two_points (array [2; 2]) 2);
    [apply in_variants_fully | apply array_wf; simpl; lia | reflexivity].
Defined.

(** C10 fails as stated: with two points, [one_dim_vectorized u 1] and
    [one_dim_vectorized u 3] both stop with a shape error in the first
    row assignment; there is neither a truncated result nor an index
    error. *)
Lemma size_mismatch_is_shape_error :
  t_shape (array [2; 2]) = [2; 2]
  /\ Etude1.one_dim_vectorized (array [2; 2]) 1 two_points = Raise RuntimeError
  /\ Etude1.one_dim_vectorized (array [2; 2]) 3 two_points = Raise RuntimeError.
Proof. repeat split; vm_compute; reflexivity. Qed.

Lemma size_argument_witness :
  wf_tensor tie_points (array [2; 2]) /\ t_shape (array [2; 2]) = [2; 2]
  /\ Etude1.naive (array [2; 2]) 3 tie_points = Raise IndexError
  /\ Etude1.one_dim_vectorized (array [2; 2]) 1 tie_points = Raise RuntimeError
  /\ result_shape (Etude1.fully_vectorized (array [2; 2]) 7 tie_points)
     = Some [2; 2]
  /\ exists r h',
      Etude1.naive (array [2; 2]) 1 tie_points = Ok (r, h')
      /\ t_shape r = [1; 1]
      /\ forall i j, i < 1 -> j < 1 ->
           load h' r [i; j]
           = dist_entry exp32 norm_once
               (point_of exp32 tie_points (array [2; 2]) i)
               (point_of exp32 tie_points (array [2; 2]) j).
Proof.
  split; [apply array_wf; simpl; lia|]. split; [reflexivity|].
  destruct (size_argument exp32 norm_once tie_points (array [2; 2]) 2)
    as (Hfv & Hblock & Hn & _ & _ & Ho & _);
    [apply array_wf; simpl; lia | reflexivity |].
  split; [apply Hn; lia|]. split; [apply Ho; lia|].
  split; [apply (Hfv 7 0)|]. apply Hblock. lia.
Defined.
End OnExamples.

(** * Further properties of the programs *)

#[local] Arguments Nat.mul : simpl never.
#[local] Arguments contiguous_strides : simpl never.
#[local] Arguments numel : simpl never.
#[local] Arguments map_ : simpl never.
#[local] Arguments indices : simpl never.
#[local] Arguments broadcast_shapes : simpl never.
#[local] Arguments expand : simpl never.
#[local] Arguments load : simpl never.
#[local] Arguments store : simpl never.

Section MoreGeneric.
Context {F : Type} `{Scalar F} `{Norm F}.
Implicit Types (h : heap F) (u r t : tensor).

(** ** The result and the memory it takes *)

Lemma naive_returns_zeros h u N r h' :
  Etude1.naive u N h = Ok (r, h') ->
  r = mkT (length h) 0 [N; N] (contiguous_strides [N; N]).
Proof.
  unfold Etude1.naive. rewrite bind_unfold, zeros_eq. cbv beta iota.
  rewrite bind_unfold.
  destruct (for_range _ _ _) as [[[] h1]|e]; [|done].
  unfold ret. by intros [= <- _].
Qed.

Lemma one_dim_returns_zeros h u N r h' :
  Etude1.one_dim_vectorized u N h = Ok (r, h') ->
  r = mkT (length h) 0 [N; N] (contiguous_strides [N; N]).
Proof.
  unfold Etude1.one_dim_vectorized. rewrite bind_unfold, zeros_eq.
  cbv beta iota. rewrite bind_unfold.
  destruct (for_range _ _ _) as [[[] h1]|e]; [|done].
  unfold ret. by intros [= <- _].
Qed.

(** [fully_vectorized] step by step: the broadcast difference and the sum
    are the only two allocations; the in-place operations reuse them. *)
Lemma fully_vectorized_run h u M D N :
  wf_tensor h u -> t_shape u = [M; D] ->
  exists sq res,
    Etude1.fully_vectorized u N h
    = Ok (mkT (length h + 1) 0 [M; M] (contiguous_strides [M; M]),
          h ++ [sq; res])
    /\ length sq = M * M * D /\ length res = M * M.
Proof.
  destruct u as [sid off shape strides]. intros [Hsid Hlen] Hshape.
  simpl in *. subst shape.
  destruct strides as [|s0 [|s1 [|? ?]]]; simpl in Hlen; try lia.
  unfold Etude1.fully_vectorized, bind, reshape_lead1, permute, ret.
  cbn [t_sid t_off t_shape t_strides length map nth].
  change (is_perm [1; 0; 2] 3) with true. cbv beta iota.
  destruct (expand_column sid off M D s0 (numel [M; D]) s1) as (x & Ex & Hx).
  destruct (expand_row sid off M D (numel [M; D]) s0 s1) as (y & Ey & Hy).
  erewrite sub_eq;
    [| exact (broadcast_shapes_pairs M D) | exact Ex | exact Ey].
  cbv beta iota. unfold pow2_, sqrt_, mul_, exp_.
  rewrite (map__contiguous _ h []) by (by rewrite length_fmap, length_indices).
  cbv beta iota.
  rewrite sum_dim_eq by (simpl; lia).
  cbv beta iota. cbn [t_shape delete list_delete nth].
  rewrite (map__contiguous fsqrt _ [])
    by (by rewrite length_fmap, length_indices).
  cbv beta iota.
  rewrite (map__contiguous _ _ [])
    by (by rewrite !length_fmap, length_indices).
  cbv beta iota.
  rewrite (map__contiguous fexp _ [])
    by (by rewrite !length_fmap, length_indices).
  rewrite <- app_assoc, length_app. cbn [length app].
  eexists _, _. split; [reflexivity|].
  rewrite !length_fmap, !length_indices, numel_2.
  split; [|done]. unfold numel; simpl. lia.
Qed.

Lemma to_list_contiguous h1 h2 (data : list F) shape :
  length data = numel shape ->
  to_list (h1 ++ data :: h2)
    (mkT (length h1) 0 shape (contiguous_strides shape)) = data.
Proof.
  intros Hlen. apply list_eq. intros p. unfold to_list. cbn [t_shape].
  rewrite list_lookup_fmap.
  destruct (decide (p < numel shape)) as [Hp|Hp].
  - rewrite lookup_indices by done. simpl.
    rewrite load_at, dot_unravel by done. simpl.
    symmetry. apply list_lookup_lookup_total_lt. lia.
  - rewrite (lookup_ge_None_2 (indices shape)) by (rewrite length_indices; lia).
    simpl. symmetry. apply lookup_ge_None_2. lia.
Qed.

(** X1: the matrix returned by each variant lives in a storage allocated by
    the call, at offset 0 and in row-major order (strides N and 1; 1 and 1
    for the empty matrix); writing into it afterwards changes no tensor that
    existed before the call, the input included. *)
Theorem result_is_fresh f h u N D :
  In f variants -> wf_tensor h u -> t_shape u = [N; D] ->
  exists r new,
    f u h = Ok (r, h ++ new)
    /\ length h <= t_sid r /\ t_off r = 0
    /\ t_strides r = [Nat.max N 1; 1]
    /\ forall t idx v idx',
         t_sid t < length h ->
         load (store (h ++ new) r idx v) t idx' = load h t idx'.
Proof.
  intros Hf Hwf Hs.
  destruct (variant_spec f h u N D Hf Hwf Hs) as (r & new & a & E & S & _).
  exists r, new. split; [done|].
  assert (t_sid r >= length h /\ t_off r = 0
          /\ t_strides r = [Nat.max N 1; 1])
    as (Hsid & Hoff & Hst).
  { destruct Hf as [<-|[<-|[<-|[]]]].
    - rewrite (naive_eq _ _ _ _ Hs) in E.
      rewrite (naive_returns_zeros _ _ _ _ _ E), contiguous_strides_2. simpl.
      auto.
    - rewrite (one_dim_vectorized_eq _ _ _ _ Hs) in E.
      rewrite (one_dim_returns_zeros _ _ _ _ _ E), contiguous_strides_2.
      simpl. auto.
    - destruct (fully_vectorized_run h u N D 0 Hwf Hs) as (sq & res & E' & _).
      change (fully_vectorized u h) with (Etude1.fully_vectorized u 0 h) in E.
      rewrite E' in E. injection E as <- _.
      rewrite contiguous_strides_2. simpl. repeat split; lia. }
  repeat (split; [done|]).
  intros t idx v idx' Ht. unfold load, store.
  rewrite list_lookup_total_insert_ne by lia.
  by rewrite lookup_total_app_l.
Qed.

(** X2: [fully_vectorized] allocates exactly two storages: the N x N x D
    array of squared differences and the N x N result, which it returns;
    square root, scaling and exponential are done in place in the second. *)
Theorem fully_vectorized_footprint h u N D :
  wf_tensor h u -> t_shape u = [N; D] ->
  exists r sq res,
    fully_vectorized u h = Ok (r, h ++ [sq; res])
    /\ length sq = N * N * D /\ length res = N * N
    /\ t_sid r = length h + 1 /\ t_shape r = [N; N]
    /\ to_list (h ++ [sq; res]) r = res.
Proof.
  intros Hwf Hs.
  destruct (fully_vectorized_run h u N D 0 Hwf Hs) as (sq & res & E & Hsq & Hres).
  eexists _, sq, res. split; [exact E|].
  repeat (split; [done|]).
  replace (length h + 1) with (length (h ++ [sq])) by (rewrite length_app; simpl; lia).
  replace (h ++ [sq; res]) with ((h ++ [sq]) ++ [res]) by (by rewrite <- app_assoc).
  apply to_list_contiguous. by rewrite numel_2.
Qed.

(** X3: the result depends on the points only.  If point [i] of [u'] (in
    any store, with any strides) has the coordinates of point [p i] of [u],
    then entry (i, j) of the matrix for [u'] is entry (p i, p j) of the
    matrix for [u]: a non-contiguous view gives the same matrix as a copy,
    and reordering, selecting or repeating points reorders, selects or
    repeats rows and columns. *)
Theorem entries_follow_points f h u N h' u' N' (p : nat -> nat) :
  In f variants ->
  wf_tensor h u -> t_shape u = [N; 2] ->
  wf_tensor h' u' -> t_shape u' = [N'; 2] ->
  (forall i, i < N' -> p i < N) ->
  (forall i k, i < N' -> k < 2 -> load h' u' [i; k] = load h u [p i; k]) ->
  exists r h1 r' h1',
    f u h = Ok (r, h1) /\ f u' h' = Ok (r', h1')
    /\ forall i j, i < N' -> j < N' ->
         load h1' r' [i; j] = load h1 r [p i; p j].
Proof.
  intros Hf Hwf Hs Hwf' Hs' Hp Hpts.
  assert (forall i j, i < N' -> j < N' ->
            differences h' u' 2 i j = differences h u 2 (p i) (p j)) as Hd.
  { intros i j Hi Hj. unfold differences.
    apply map_ext_in. intros k Hk%in_seq. by rewrite !Hpts by lia. }
  destruct Hf as [<-|[<-|[<-|[]]]].
  - rewrite (naive_eq _ _ _ _ Hs), (naive_eq _ _ _ _ Hs').
    destruct (naive_spec h u N 2 N Hwf Hs) as (r & st & E & _ & L); [done|].
    destruct (naive_spec h' u' N' 2 N' Hwf' Hs') as (r' & st' & E' & _ & L');
      [done|].
    exists r, (h ++ [st]), r', (h' ++ [st']). split; [done|]. split; [done|].
    intros i j Hi Hj. rewrite L', L by auto.
    unfold dist_affinity. by rewrite Hd.
  - rewrite (one_dim_vectorized_eq _ _ _ _ Hs),
            (one_dim_vectorized_eq _ _ _ _ Hs').
    destruct (one_dim_vectorized_spec h u N 2 Hwf Hs) as (r & new & E & _ & L).
    destruct (one_dim_vectorized_spec h' u' N' 2 Hwf' Hs')
      as (r' & new' & E' & _ & L').
    exists r, (h ++ new), r', (h' ++ new'). split; [done|]. split; [done|].
    intros i j Hi Hj. rewrite L', L, !affinity_pipeline by auto.
    by rewrite Hd.
  - destruct (fully_vectorized_spec h u N 2 0 Hwf Hs) as (r & new & E & _ & L).
    destruct (fully_vectorized_spec h' u' N' 2 0 Hwf' Hs')
      as (r' & new' & E' & _ & L').
    exists r, (h ++ new), r', (h' ++ new'). split; [done|]. split; [done|].
    intros i j Hi Hj. rewrite L', L, !affinity_pipeline by auto.
    by rewrite Hd.
Qed.

(** X4: [one_dim_vectorized] allocates the result first and then two
    temporaries for every row (the differences and the row itself): 1 + 2 N
    storages in all, against two for [fully_vectorized]. *)
Theorem one_dim_vectorized_footprint h u N D :
  wf_tensor h u -> t_shape u = [N; D] ->
  exists r res temps,
    one_dim_vectorized u h = Ok (r, h ++ res :: temps)
    /\ t_sid r = length h /\ t_shape r = [N; N]
    /\ length res = N * N /\ length temps = 2 * N
    /\ to_list (h ++ res :: temps) r = res.
Proof.
  intros Hwf Hs. rewrite (one_dim_vectorized_eq _ _ _ _ Hs).
  destruct u as [sid off shape strides]. destruct Hwf as [Hsid Hlen].
  simpl in *. subst shape.
  destruct strides as [|s0 [|s1 [|? ?]]]; simpl in Hlen; try lia.
  unfold Etude1.one_dim_vectorized.
  rewrite bind_unfold, zeros_eq. cbv beta iota.
  set (result := mkT (length h) 0 [N; N] (contiguous_strides [N; N])).
  rewrite bind_unfold. unfold for_range.
  pose (I := fun (k : nat) (hk : heap F) =>
    exists st temps, hk = h ++ st :: temps /\ length st = N * N
      /\ length temps = 2 * k).
  match goal with |- context [for_each _ ?body _] =>
    destruct (for_each_inv I body N 0 (h ++ [replicate (numel [N; N]) fzero]))
      as (h' & -> & (st & temps & -> & Hst & Htemps))
  end.
  - exists (replicate (numel [N; N]) fzero), [].
    split; [done|]. by rewrite length_replicate, numel_2.
  - intros k hk Hk (st & temps & Ehk & Hst & Htemps). cbv beta.
    destruct (row_pipeline (fun d5 => setrow result k d5) hk sid off N D s0 s1 k)
      as (sq & final & -> & Hfin & _); [lia|].
    assert (Ehc : (hk ++ [sq]) ++ [final] = h ++ st :: (temps ++ [sq; final])).
    { rewrite Ehk, <- !app_assoc. reflexivity. }
    rewrite Ehc. unfold result. rewrite setrow_same by lia.
    eexists. split; [reflexivity|].
    eexists _, _. split; [reflexivity|].
    match goal with |- context [fold_left ?f (seq 0 N) st] =>
      destruct (fold_insert_seq
                  (fun p => load (h ++ st :: temps ++ [sq; final])
                              (mkT (length (hk ++ [sq])) 0 [N]
                                 (contiguous_strides [N])) [p])
                  N st (k * N)) as [Hl _]; [nia|]
    end.
    cbv zeta in Hl. split; [lia|]. rewrite length_app. simpl. lia.
  - cbv beta iota. unfold ret.
    exists result, st, temps. split; [reflexivity|].
    repeat (split; [done || lia|]).
    apply to_list_contiguous. by rewrite numel_2.
Qed.

(** ** Arrays that are not N x D *)

Lemma broadcast_shapes_same s : broadcast_shapes s s = Some s.
Proof.
  unfold broadcast_shapes.
  assert (forall l, broadcast_rev l l = Some l) as Hrev.
  { induction l as [|x l IH]; simpl; [done|]. by rewrite IH, Nat.eqb_refl. }
  rewrite Hrev. simpl. by rewrite rev_involutive.
Qed.

Lemma slice_affinity_app h h2 u i j :
  t_sid u < length h ->
  slice_affinity (h ++ h2) u i j = slice_affinity h u i j.
Proof.
  intros Hs. unfold slice_affinity. do 3 f_equal.
  apply list_fmap_ext. intros _ idx _. by rewrite !load_app.
Qed.

Lemma naive_body_any h st rest sid off M s st0 sts N i j :
  length sts = length s ->
  i < M -> j < M -> i < N -> j < N ->
  let u := mkT sid off (M :: s) (st0 :: sts) in
  let result := mkT (length h) 0 [N; N] (contiguous_strides [N; N]) in
  (let* ui := select u i in
   let* uj := select u j in
   let* d := dist ui uj in
   setitem2 result i j (fexp (fmul d neg_quarter))) (h ++ st :: rest)
  = Ok (tt, h ++ <[i * N + j := slice_affinity (h ++ st :: rest) u i j]> st
                 :: rest).
Proof.
  intros Hlen Hi Hj HiN HjN u result. subst u result. unfold bind.
  rewrite select_eq by done. cbv beta iota.
  rewrite select_eq by done. cbv beta iota.
  erewrite dist_eq;
    [| exact (broadcast_shapes_same s)
     | exact (expand_same _ _ s sts Hlen)
     | exact (expand_same _ _ s sts Hlen)].
  cbv beta iota. by rewrite setitem2_eq.
Qed.

(** On M slices of any shape, [naive] returns the M x M matrix of the
    scaled norms of the differences of the slices. *)
Lemma naive_slices h u M s :
  wf_tensor h u -> t_shape u = M :: s ->
  exists r st,
    naive u h = Ok (r, h ++ [st])
    /\ t_shape r = [M; M]
    /\ forall i j, i < M -> j < M ->
         load (h ++ [st]) r [i; j] = slice_affinity h u i j.
Proof.
  intros Hwf Hs. rewrite (naive_eq _ _ _ _ Hs).
  destruct u as [sid off shape strides]. destruct Hwf as [Hsid Hlen].
  simpl in *. subst shape.
  destruct strides as [|st0 sts]; simpl in Hlen; [lia|].
  assert (length sts = length s) as Hlen' by lia.
  set (u := mkT sid off (M :: s) (st0 :: sts)).
  unfold Etude1.naive.
  rewrite bind_unfold, zeros_eq. cbv beta iota.
  set (result := mkT (length h) 0 [M; M] (contiguous_strides [M; M])).
  rewrite bind_unfold. unfold for_range.
  pose (J := fun (i j : nat) (hk : heap F) =>
    exists st, hk = h ++ [st] /\ length st = M * M
      /\ forall a b, a < i \/ (a = i /\ b < j) -> b < M ->
           st !!! (a * M + b) = slice_affinity h u a b).
  match goal with |- context [for_each _ ?body _] =>
    destruct (for_each_inv (fun i => J i 0) body M 0
                (h ++ [replicate (numel [M; M]) fzero]))
      as (h' & -> & (st & -> & Hst & Hinv))
  end.
  - exists (replicate (numel [M; M]) fzero).
    split; [done|]. rewrite length_replicate, numel_2. split; [done|]. lia.
  - intros i hk Hi HJ. cbv beta.
    match goal with |- context [for_each _ ?body _] =>
      destruct (for_each_inv (J i) body M 0 hk HJ)
        as (h' & -> & (st & -> & Hst & Hinv))
    end.
    + intros j hj Hj (st & -> & Hst & Hinv). cbv beta.
      unfold u at 1 2, result.
      rewrite (naive_body_any h st [] sid off M s st0 sts M i j) by (done || lia).
      fold u.
      eexists. split; [reflexivity|].
      eexists. split; [reflexivity|]. rewrite length_insert.
      split; [done|]. intros a b Hab Hb.
      rewrite list_lookup_total_insert. case_decide as Hd.
      * assert (a = i /\ b = j) as [-> ->] by nia.
        by apply (slice_affinity_app h [st]).
      * apply Hinv; [|done].
        destruct (decide (a = i /\ b = j)) as [[-> ->]|Hne].
        { exfalso. apply Hd. split; [done|]. nia. }
        lia.
    + eexists. split; [reflexivity|].
      exists st. split; [done|]. split; [done|].
      intros a b Hab Hb. apply Hinv; [|done]. lia.
  - cbv beta iota. unfold ret.
    eexists _, _. split; [reflexivity|]. split; [reflexivity|].
    intros i j Hi Hj. unfold result. rewrite (load_result h st []) by done.
    apply Hinv; [|done]. lia.
Qed.

(** X6: [fully_vectorized] permutes three dimensions, so it raises a
    RuntimeError on every array that is not two-dimensional, whatever its
    contents. *)
Theorem fully_vectorized_needs_rank_2 h u :
  length (t_shape u) <> 2 -> fully_vectorized u h = Raise RuntimeError.
Proof.
  intros Hr. unfold fully_vectorized, bind, reshape_lead1, ret, permute.
  cbn [t_shape length].
  assert (is_perm [1; 0; 2] (S (length (t_shape u))) = false) as ->; [|done].
  unfold is_perm. apply andb_false_iff. left.
  apply Nat.eqb_neq. simpl. lia.
Qed.

(** X7: on a vector of M numbers [one_dim_vectorized] returns the empty
    matrix when M = 0 and otherwise raises an IndexError in its first
    iteration, where [sum(dim=1)] meets a one-dimensional tensor. *)
Theorem one_dim_vectorized_on_vector h u M :
  wf_tensor h u -> t_shape u = [M] ->
  (M = 0 -> result_shape (one_dim_vectorized u h) = Some [0; 0])
  /\ (0 < M -> one_dim_vectorized u h = Raise IndexError).
Proof.
  intros Hwf Hs. rewrite (one_dim_vectorized_eq _ _ _ _ Hs). split.
  - intros ->. reflexivity.
  - intros HM.
    destruct u as [sid off shape strides]. destruct Hwf as [Hsid Hlen].
    simpl in *. subst shape.
    destruct strides as [|st0 [|? ?]]; simpl in Hlen; try lia.
    unfold Etude1.one_dim_vectorized.
    rewrite bind_unfold, zeros_eq. cbv beta iota.
    rewrite bind_unfold. unfold for_range.
    erewrite (for_each_raise_at _ 0 M 0); [done|lia|reflexivity|].
    cbv beta. unfold bind.
    rewrite select_eq by done. cbv beta iota.
    erewrite sub_eq;
      [| reflexivity | reflexivity | exact (expand_same _ _ [M] [st0] eq_refl)].
    cbv beta iota. unfold pow2_.
    rewrite (map__contiguous _ _ []) by (by rewrite length_fmap, length_indices).
    cbv beta iota. unfold sum_dim. cbn [t_shape length].
    by rewrite Nat.ltb_irrefl.
Qed.
End MoreGeneric.

(** ** Non-finite, repeated and negated points (binary32) *)

Section MoreBinary32.
Import F32.
Variable exp : spec_float -> spec_float.
Variable norm : list spec_float -> spec_float.

#[local] Hint Extern 0 (Scalar spec_float) =>
  exact (F32.ops exp) : typeclass_instances.
#[local] Hint Extern 0 (Norm spec_float) =>
  exact (Build_Norm _ norm) : typeclass_instances.

Implicit Types (h : heap spec_float) (u r : tensor).

Lemma f32_sub_self_nonfinite x : is_finite x = false -> sub x x = S754_nan.
Proof. by destruct x as [[]|[]| |[] m e]. Qed.

Lemma f32_sub_nan_l y : sub S754_nan y = S754_nan.
Proof. by destruct y. Qed.

Lemma f32_sub_nan_r x : sub x S754_nan = S754_nan.
Proof. by destruct x. Qed.

Lemma f32_add_nan_l y : add S754_nan y = S754_nan.
Proof. by destruct y. Qed.

Lemma f32_add_nan_r x : add x S754_nan = S754_nan.
Proof. by destruct x. Qed.

(** A NaN difference in either coordinate makes the entry exp(NaN), given
    that the norm of a vector with a NaN is NaN. *)
Lemma entry_nan h u a i j k :
  (forall l, In S754_nan l -> norm l = S754_nan) ->
  a = dist_affinity h u 2 \/ a = affinity h u 2 ->
  k < 2 -> sub (load h u [i; k]) (load h u [j; k]) = S754_nan ->
  a i j = exp S754_nan.
Proof.
  intros Hnan [-> | ->] Hk Hd.
  - rewrite dist_affinity_2. rewrite Hnan; [done|].
    assert (k = 0 \/ k = 1) as [-> | ->] by lia; rewrite Hd; simpl; auto.
  - rewrite affinity_2.
    assert (k = 0 \/ k = 1) as [-> | ->] by lia; rewrite Hd.
    + change (mul S754_nan S754_nan) with S754_nan.
      change (add zero S754_nan) with S754_nan.
      by rewrite f32_add_nan_l.
    + change (mul S754_nan S754_nan) with S754_nan.
      by rewrite f32_add_nan_r.
Qed.

(** X8: a point with a NaN or infinite coordinate does not have 1.0 on the
    diagonal: x - x is NaN there, and so is the diagonal entry, given that
    the norm of a vector with a NaN is NaN and that exp(NaN) is NaN.
    Nothing is trapped. *)
Theorem nonfinite_diagonal f h u N i k :
  exp S754_nan = S754_nan ->
  (forall l, In S754_nan l -> norm l = S754_nan) ->
  In f variants -> wf_tensor h u -> t_shape u = [N; 2] ->
  i < N -> k < 2 -> is_finite (load h u [i; k]) = false ->
  exists r h',
    f u h = Ok (r, h')
    /\ load h' r [i; i] = S754_nan /\ load h' r [i; i] <> one.
Proof.
  intros Hexp Hnan Hf Hwf Hs Hi Hk Hnf.
  destruct (variant_spec f h u N 2 Hf Hwf Hs) as (r & new & a & E & _ & Ha & L).
  exists r, (h ++ new). split; [done|]. rewrite L by done.
  rewrite (entry_nan h u a i i k Hnan Ha Hk)
    by (by apply f32_sub_self_nonfinite).
  by rewrite Hexp.
Qed.

(** X9: a NaN coordinate in point i fills row i and column i of the result
    with exp(NaN), given that the norm of a vector with a NaN is NaN. *)
Theorem nan_row_and_column f h u N i k :
  (forall l, In S754_nan l -> norm l = S754_nan) ->
  In f variants -> wf_tensor h u -> t_shape u = [N; 2] ->
  i < N -> k < 2 -> load h u [i; k] = S754_nan ->
  exists r h',
    f u h = Ok (r, h')
    /\ forall j, j < N ->
         load h' r [i; j] = exp S754_nan /\ load h' r [j; i] = exp S754_nan.
Proof.
  intros Hnan Hf Hwf Hs Hi Hk Hu.
  destruct (variant_spec f h u N 2 Hf Hwf Hs) as (r & new & a & E & _ & Ha & L).
  exists r, (h ++ new). split; [done|]. intros j Hj. rewrite !L by done.
  split; apply (entry_nan h u a _ _ k Hnan Ha Hk); rewrite Hu.
  - apply f32_sub_nan_l.
  - apply f32_sub_nan_r.
Qed.

(** X10: two points with the same finite coordinates have affinity exactly
    1.0, on and off the diagonal, given that exp(+-0) = 1 and that the norm
    of the zero vector is 0. *)
Theorem coincident_points_affinity_one f h u N i j :
  (forall s, exp (S754_zero s) = one) ->
  norm [zero; zero] = zero ->
  In f variants -> wf_tensor h u -> t_shape u = [N; 2] ->
  i < N -> j < N ->
  (forall k, k < 2 -> load h u [i; k] = load h u [j; k]) ->
  (forall k, k < 2 -> is_finite (load h u [i; k]) = true) ->
  exists r h',
    f u h = Ok (r, h') /\ load h' r [i; j] = one /\ load h' r [j; i] = one.
Proof.
  intros Hexp Hnorm Hf Hwf Hs Hi Hj Heq Hfin.
  destruct (variant_spec f h u N 2 Hf Hwf Hs) as (r & new & a & E & _ & Ha & L).
  exists r, (h ++ new). split; [done|]. rewrite !L by done.
  destruct Ha as [-> | ->].
  - rewrite !dist_affinity_2, <- !Heq by lia.
    rewrite !f32_sub_self by (apply Hfin; lia). rewrite Hnorm.
    split; apply Hexp.
  - rewrite !affinity_2, <- !Heq by lia.
    rewrite !f32_sub_self by (apply Hfin; lia).
    split; apply Hexp.
Qed.

(** X5: [naive] only indexes the first dimension, so it accepts an array of
    any rank >= 1 (a vector of numbers, a stack of matrices): for M slices
    it returns the M x M matrix of exp(-0.25 x norm of u[i] - u[j]), the
    library's norm being taken of all elements of the difference of the two
    slices. *)
Theorem naive_any_rank h u M s :
  wf_tensor h u -> t_shape u = M :: s ->
  exists r st,
    naive u h = Ok (r, h ++ [st])
    /\ t_shape r = [M; M]
    /\ forall i j, i < M -> j < M ->
         load (h ++ [st]) r [i; j]
         = exp (mul minus_quarter
                  (norm ((fun idx => sub (load h (row_view u i) idx)
                                         (load h (row_view u j) idx))
                           <$> indices s))).
Proof.
  intros Hwf Hs.
  destruct (naive_slices h u M s Hwf Hs) as (r & st & E & S & L).
  exists r, st. split; [done|]. split; [done|].
  intros i j Hi Hj. rewrite L by done.
  unfold slice_affinity. rewrite Hs.
  cbn [tl fexp fmul fsub fnorm neg_quarter ops].
  by rewrite f32_mul_comm.
Qed.

Lemma f32_sub_opp a b :
  sub (SFopp a) (SFopp b) = SFopp (sub a b)
  \/ (sub (SFopp a) (SFopp b) = zero /\ sub a b = zero).
Proof.
  destruct a as [[]|[]| |sa ma ea], b as [[]|[]| |sb mb eb];
    try (by left); try (by right);
    try (destruct sa; by left); try (destruct sb; by left).
  cbn [SFopp]. cbv beta iota zeta delta [sub SFsub].
  set (X := Z.pos (fst (shl_align ma ea (Z.min ea eb)))).
  set (Y := Z.pos (fst (shl_align mb eb (Z.min ea eb)))).
  destruct (binary_normalize_opp prec emax
              (cond_Zopp sa X - cond_Zopp sb Y) (Z.min ea eb)) as [Ho|Hz].
  - left. rewrite <- Ho. f_equal. destruct sa, sb; simpl; lia.
  - right. rewrite Hz.
    replace (cond_Zopp (negb sa) X - cond_Zopp (negb sb) Y)%Z with 0%Z
      by (destruct sa, sb; simpl in *; lia).
    done.
Qed.

Lemma f32_sq_sub_opp a b :
  mul (sub (SFopp a) (SFopp b)) (sub (SFopp a) (SFopp b))
  = mul (sub a b) (sub a b).
Proof.
  destruct (f32_sub_opp a b) as [->|[-> ->]]; [|done].
  apply f32_mul_opp_self.
Qed.

Lemma f32_abs_sub_opp a b : SFabs (sub (SFopp a) (SFopp b)) = SFabs (sub a b).
Proof.
  destruct (f32_sub_opp a b) as [->|[-> ->]]; [|done].
  by destruct (sub a b).
Qed.

(** X11: reflecting all points through the origin leaves the matrix
    unchanged: if every coordinate of [u'] is the negation of that of [u],
    each variant returns for [u'] the floats it returns for [u], bit for bit
    wherever the entry is not NaN, and NaN where it is NaN (sign and payload
    of a NaN are not modelled).  Of the norm this takes that it ignores the
    signs of the differences. *)
Theorem negation_invariance f h u h' u' N :
  (forall l, norm (map SFabs l) = norm l) ->
  In f variants ->
  wf_tensor h u -> t_shape u = [N; 2] ->
  wf_tensor h' u' -> t_shape u' = [N; 2] ->
  (forall i k, i < N -> k < 2 -> load h' u' [i; k] = SFopp (load h u [i; k])) ->
  exists r h1 r' h1',
    f u h = Ok (r, h1) /\ f u' h' = Ok (r', h1')
    /\ forall i j, i < N -> j < N ->
         (load h1 r [i; j] <> S754_nan ->
          load h1' r' [i; j] = load h1 r [i; j])
         /\ (load h1 r [i; j] = S754_nan -> load h1' r' [i; j] = S754_nan).
Proof.
  intros Habs Hf Hwf Hs Hwf' Hs' Hneg.
  assert (exists r h1 r' h1',
    f u h = Ok (r, h1) /\ f u' h' = Ok (r', h1')
    /\ forall i j, i < N -> j < N ->
         load h1' r' [i; j] = load h1 r [i; j])
    as (r & h1 & r' & h1' & E & E' & L).
  { destruct Hf as [<-|[<-|[<-|[]]]].
    - rewrite (naive_eq _ _ _ _ Hs), (naive_eq _ _ _ _ Hs').
      destruct (naive_spec h u N 2 N Hwf Hs) as (r & st & E & _ & L); [done|].
      destruct (naive_spec h' u' N 2 N Hwf' Hs') as (r' & st' & E' & _ & L');
        [done|].
      exists r, (h ++ [st]), r', (h' ++ [st']). split; [done|]. split; [done|].
      intros i j Hi Hj. rewrite L', L, !dist_affinity_2 by done.
      rewrite !Hneg by lia.
      rewrite <- (Habs [sub (SFopp _) _; _]), <- (Habs [sub (load h u _) _; _]).
      cbn [map]. by rewrite !f32_abs_sub_opp.
    - rewrite (one_dim_vectorized_eq _ _ _ _ Hs),
              (one_dim_vectorized_eq _ _ _ _ Hs').
      destruct (one_dim_vectorized_spec h u N 2 Hwf Hs)
        as (r & new & E & _ & L).
      destruct (one_dim_vectorized_spec h' u' N 2 Hwf' Hs')
        as (r' & new' & E' & _ & L').
      exists r, (h ++ new), r', (h' ++ new'). split; [done|]. split; [done|].
      intros i j Hi Hj. rewrite L', L, !affinity_2 by done.
      rewrite !Hneg by lia. by rewrite !f32_sq_sub_opp.
    - destruct (fully_vectorized_spec h u N 2 0 Hwf Hs)
        as (r & new & E & _ & L).
      destruct (fully_vectorized_spec h' u' N 2 0 Hwf' Hs')
        as (r' & new' & E' & _ & L').
      exists r, (h ++ new), r', (h' ++ new'). split; [done|]. split; [done|].
      intros i j Hi Hj. rewrite L', L, !affinity_2 by done.
      rewrite !Hneg by lia. by rewrite !f32_sq_sub_opp. }
  exists r, h1, r', h1'. split; [done|]. split; [done|].
  intros i j Hi Hj. rewrite L by done. auto.
Qed.
End MoreBinary32.

(** ** The benchmark harness *)

Section BenchFacts.
Context {F : Type} `{Scalar F} `{Norm F} {T : Type} `{Timing T}.
Variable o : oracle F T.
Implicit Types (w : world F) (func : tensor -> @M F tensor).

Lemma wbind_unfold {A B} (m : W A) (k : A -> W B) w :
  wbind m k w = match m w with
                | Done (a, w') => k a w'
                | Failed e => Failed e
                end.
Proof. reflexivity. Qed.

Lemma randn_wf w n d :
  wf_tensor (w_heap w ++ [normal o <$> seq (w_draws w) (n * d)])
    (mkT (length (w_heap w)) 0 [n; d] (contiguous_strides [n; d])).
Proof. split; simpl; [rewrite length_app; simpl; lia|done]. Qed.

Lemma average_mean (l : list T) :
  l <> [] -> average (F:=F) l = wret (mean l).
Proof. by destruct l. Qed.

Lemma elapsed_shift c i : elapsed o c (S i) = elapsed o (S (S c)) i.
Proof. unfold elapsed. do 2 f_equal; lia. Qed.

(** The timed runs for one size: [k] elapsed times are appended, the clock
    is read twice per run. *)
Lemma timed_runs (g : tensor -> @M F tensor) n :
  (forall h u, wf_tensor h u -> t_shape u = [n; 2] ->
     exists r h', g u h = Ok (r, h')) ->
  forall k s (t0 : list T) w,
  exists w',
    for_acc (seq s k) (fun _ t0 =>
      let+ u := randn o n 2 in
      let+ start := time o in
      let+ _ := run_tensor (g u) in
      let+ stop := time o in
      wret (t0 ++ [t_sub stop start])) t0 w
    = Done (t0 ++ map (elapsed o (w_ticks w)) (seq 0 k), w')
    /\ w_ticks w' = w_ticks w + 2 * k /\ w_picks w' = w_picks w.
Proof.
  intros Hret. induction k as [|k IH]; intros s t0 w.
  - exists w. simpl. rewrite app_nil_r. split; [done|]. lia.
  - cbn [seq for_acc]. rewrite wbind_unfold.
    rewrite wbind_unfold. unfold randn at 1. cbv beta iota.
    rewrite wbind_unfold. unfold time at 1. cbv beta iota.
    cbn [w_heap w_ticks w_draws w_picks].
    rewrite wbind_unfold. unfold run_tensor at 1.
    cbn [w_heap w_ticks w_draws w_picks].
    destruct (Hret _ _ (randn_wf w n 2) eq_refl) as (r & h' & ->).
    rewrite wbind_unfold. unfold time at 1. cbv beta iota.
    cbn [w_heap w_ticks w_draws w_picks]. unfold wret at 1.
    match goal with |- context [for_acc _ _ ?acc ?w1] =>
      destruct (IH (S s) acc w1) as (w' & -> & Ht & Hp)
    end.
    cbn [w_ticks w_picks] in *. exists w'. split; [|lia].
    do 2 f_equal. rewrite <- app_assoc. f_equal.
    cbn [seq map app]. f_equal.
    + unfold elapsed. do 2 f_equal; lia.
    + rewrite <- seq_shift, map_map. apply map_ext. intros i.
      symmetry. apply elapsed_shift.
Qed.

Lemma timings_cons c R k :
  timings o c R (S k)
  = mean (map (elapsed o c) (seq 0 R)) :: timings o (c + 2 * R) R k.
Proof.
  unfold timings. cbn [seq fmap list_fmap]. f_equal.
  - do 2 f_equal. f_equal. lia.
  - rewrite <- seq_shift, <- !map_fmap, map_map. apply map_ext. intros i.
    do 3 f_equal. lia.
Qed.

(** The loop over the sizes, for a function that is given the size. *)
Lemma sized_runs (g : nat -> tensor -> @M F tensor) R :
  0 < R ->
  (forall n h u, wf_tensor h u -> t_shape u = [n; 2] ->
     exists r h', g n u h = Ok (r, h')) ->
  forall (l : list nat) (t : list T) w,
  exists w',
    for_acc l (fun n t =>
      let+ t0 := for_acc (seq 0 R) (fun _ t0 =>
                   let+ u := randn o n 2 in
                   let+ start := time o in
                   let+ _ := run_tensor (g n u) in
                   let+ stop := time o in
                   wret (t0 ++ [t_sub stop start])) [] in
      let+ avg := average t0 in
      wret (t ++ [avg])) t w
    = Done (t ++ timings o (w_ticks w) R (length l), w')
    /\ w_ticks w' = w_ticks w + 2 * R * length l /\ w_picks w' = w_picks w.
Proof.
  intros HR Hret. induction l as [|n l IH]; intros t w.
  - exists w. simpl. unfold timings. simpl. rewrite app_nil_r.
    split; [done|]. lia.
  - cbn [for_acc]. rewrite wbind_unfold. rewrite wbind_unfold.
    destruct (timed_runs (g n) n (Hret n) R 0 [] w) as (w1 & -> & Ht1 & Hp1).
    cbn [app]. rewrite average_mean by (destruct R; [lia|done]).
    rewrite wbind_unfold. unfold wret at 1 2.
    destruct (IH (t ++ [mean (map (elapsed o (w_ticks w)) (seq 0 R))]) w1)
      as (w' & -> & Ht & Hp).
    exists w'. split; [|simpl; lia].
    do 2 f_equal. rewrite <- app_assoc. f_equal.
    cbn [length app]. rewrite timings_cons, Ht1. done.
Qed.

(** The warm-up runs: nothing is timed. *)
Lemma warmup_runs func (n_range : list nat) :
  n_range <> [] -> returns_on_points func ->
  forall k s w,
  exists w',
    for_acc (seq s k) (fun _ _ =>
      let+ size := choice o n_range in
      let+ u := randn o size 2 in
      let+ _ := run_tensor (func u) in
      wret tt) tt w
    = Done (tt, w')
    /\ w_ticks w' = w_ticks w /\ w_picks w' = w_picks w + k.
Proof.
  intros Hne Hret. induction k as [|k IH]; intros s w.
  - exists w. simpl. split; [done|]. lia.
  - cbn [seq for_acc]. rewrite wbind_unfold.
    rewrite wbind_unfold. unfold choice at 1.
    destruct n_range as [|n0 l0]; [done|]. cbv beta iota.
    rewrite wbind_unfold. unfold randn at 1. cbv beta iota.
    cbn [w_heap w_ticks w_draws w_picks].
    rewrite wbind_unfold. unfold run_tensor at 1.
    cbn [w_heap w_ticks w_draws w_picks].
    match goal with |- context [func ?u ?h] =>
      destruct (Hret h u _ (randn_wf w _ 2) eq_refl) as (r & h' & ->)
    end.
    unfold wret at 1.
    match goal with |- context [for_acc _ _ tt ?w1] =>
      destruct (IH (S s) w1) as (w' & -> & Ht & Hp)
    end.
    cbn [w_ticks w_picks] in *. exists w'. split; [done|]. lia.
Qed.

Lemma bench_runs func (n_range : list nat) R warmup w :
  returns_on_points func -> 0 < R -> warmup = 0 \/ n_range <> [] ->
  exists w',
    bench o func n_range R warmup w
    = Done (timings o (w_ticks w) R (length n_range), w')
    /\ w_ticks w' = w_ticks w + 2 * R * length n_range
    /\ w_picks w' = w_picks w + warmup.
Proof.
  intros Hret HR Hw. unfold bench. rewrite wbind_unfold.
  assert (exists w1,
    (if warmup =? 0 then wret tt
     else for_acc (seq 0 warmup) (fun _ _ =>
            let+ size := choice o n_range in
            let+ u := randn o size 2 in
            let+ _ := run_tensor (func u) in
            wret tt) tt) w = Done (tt, w1)
    /\ w_ticks w1 = w_ticks w /\ w_picks w1 = w_picks w + warmup)
    as (w1 & -> & Ht1 & Hp1).
  { destruct (warmup =? 0) eqn:E.
    - apply Nat.eqb_eq in E. subst. exists w. split; [done|]. lia.
    - apply Nat.eqb_neq in E. destruct Hw as [?|Hne]; [done|].
      apply (warmup_runs func n_range Hne Hret). }
  destruct (sized_runs (fun _ u => func u) R HR (fun n h u => Hret h u n)
              n_range [] w1)
    as (w' & E & Ht & Hp).
  cbv beta in E. rewrite E. exists w'. simpl. rewrite Ht1.
  split; [done|]. lia.
Qed.

Lemma variants_return f : In f variants -> returns_on_points f.
Proof.
  intros Hf h u n Hwf Hs.
  destruct (variant_spec f h u n 2 Hf Hwf Hs) as (r & new & a & E & _).
  eauto.
Qed.
End BenchFacts.

Section BenchProperties.
Context {F : Type} `{Scalar F} `{Norm F} {T : Type} `{Timing T}.
Variable o : oracle F T.
Implicit Types (w : world F) (func : tensor -> @M F tensor).

(** X12: when [func] returns on every array of points and repeat >= 1,
    [bench] returns one number per size of [n_range]: for the k-th size,
    the mean of the elapsed times of the next [repeat] runs, each measured
    by two clock readings taken immediately before and after the call of
    [func].  Generating the array is outside the timed window, and the
    warm-up runs read no clock at all: 2 x repeat x len(n_range) readings
    are made, and np.random is drawn from once per warm-up run. *)
Theorem bench_timings func (n_range : list nat) R warmup w :
  returns_on_points func -> 0 < R -> warmup = 0 \/ n_range <> [] ->
  exists t w',
    bench o func n_range R warmup w = Done (t, w')
    /\ length t = length n_range
    /\ (forall k, k < length n_range ->
          t !! k = Some (mean (map (elapsed o (w_ticks w + 2 * (k * R)))
                                 (seq 0 R))))
    /\ w_ticks w' = w_ticks w + 2 * R * length n_range
    /\ w_picks w' = w_picks w + warmup.
Proof.
  intros Hret HR Hw.
  destruct (bench_runs o func n_range R warmup w Hret HR Hw)
    as (w' & E & Ht & Hp).
  eexists _, w'. split; [exact E|]. unfold timings.
  split; [by rewrite length_fmap, length_seq|].
  split; [|done]. intros k Hk.
  by rewrite list_lookup_fmap, lookup_seq_lt.
Qed.

(** X13: benchmarking any of the three variants never raises (repeat >= 1,
    and sizes to choose from when warming up): one average comes back for
    every size in [n_range]. *)
Theorem bench_of_variant f (n_range : list nat) R warmup w :
  In f variants -> 0 < R -> warmup = 0 \/ n_range <> [] ->
  exists t w',
    bench o f n_range R warmup w = Done (t, w')
    /\ length t = length n_range.
Proof.
  intros Hf HR Hw.
  destruct (bench_runs o f n_range R warmup w (variants_return f Hf) HR Hw)
    as (w' & E & _).
  eexists _, w'. split; [exact E|].
  unfold timings. by rewrite length_fmap, length_seq.
Qed.

Lemma Etude1_variants_return (f : tensor -> nat -> @M F tensor) :
  In f Etude1_variants ->
  forall n h u, wf_tensor h u -> t_shape u = [n; 2] ->
    exists r h', f u n h = Ok (r, h').
Proof.
  intros [<-|[<-|[<-|[]]]] n h u Hwf Hs.
  - destruct (naive_spec h u n 2 n Hwf Hs) as (r & st & E & _); eauto.
  - destruct (one_dim_vectorized_spec h u n 2 Hwf Hs) as (r & new & E & _); eauto.
  - destruct (fully_vectorized_spec h u n 2 n Hwf Hs) as (r & new & E & _); eauto.
Qed.

(** X14: the harness of the first notebook passes to [func] the length of
    the array it has just drawn, so none of the size mismatches of C10 can
    occur: for each of the three sized variants it returns the means of the
    timed runs, one per size. *)
Theorem Etude1_bench_of_variant f (n_range : list nat) R w :
  In f Etude1_variants -> 0 < R ->
  exists w',
    Etude1_bench o f n_range R w
    = Done (timings o (w_ticks w) R (length n_range), w')
    /\ length (timings o (w_ticks w) R (length n_range)) = length n_range
    /\ w_ticks w' = w_ticks w + 2 * R * length n_range.
Proof.
  intros Hf HR.
  destruct (sized_runs o (fun n u => f u n) R HR (Etude1_variants_return f Hf)
              n_range [] w) as (w' & E & Ht & _).
  cbv beta in E. exists w'. split; [exact E|]. split; [|done].
  unfold timings. by rewrite length_fmap, length_seq.
Qed.

(** X15: with repeat = 0 and at least one size, both harnesses raise
    ZeroDivisionError at the first average, [sum(t0) / len(t0)] of an empty
    list; [func] is not called in the timed part. *)
Theorem bench_repeat_zero func (g : tensor -> nat -> @M F tensor)
    n (l : list nat) warmup w :
  warmup = 0 \/ returns_on_points func ->
  bench o func (n :: l) 0 warmup w = Failed ZeroDivisionError
  /\ Etude1_bench o g (n :: l) 0 w = Failed ZeroDivisionError.
Proof.
  intros Hw. split; [|reflexivity].
  unfold bench. rewrite wbind_unfold.
  destruct (warmup =? 0) eqn:E; [reflexivity|].
  apply Nat.eqb_neq in E. destruct Hw as [?|Hret]; [done|].
  destruct (warmup_runs o func (n :: l) ltac:(done) Hret warmup 0 w)
    as (w1 & -> & _).
  reflexivity.
Qed.

(** X16: with no size at all, both harnesses return the empty list and
    leave the world as it was; but a warm-up then raises ValueError, since
    [np.random.choice] has nothing to choose from. *)
Theorem bench_empty_range func (g : tensor -> nat -> @M F tensor) R warmup w :
  bench o func [] R 0 w = Done ([], w)
  /\ Etude1_bench o g [] R w = Done ([], w)
  /\ (0 < warmup -> bench o func [] R warmup w = Failed ValueError).
Proof.
  split; [reflexivity|]. split; [reflexivity|].
  intros Hw. destruct warmup as [|k]; [lia|]. reflexivity.
Qed.

(** X17: an error of [func] is not caught: if [func] raises [e] on arrays
    of the first size, [bench] stops there with that error and returns no
    timings. *)
Theorem bench_propagates func e n (l : list nat) R w :
  (forall h u, wf_tensor h u -> t_shape u = [n; 2] -> func u h = Raise e) ->
  0 < R ->
  bench o func (n :: l) R 0 w = Failed (TensorError e).
Proof.
  intros Hraise HR. destruct R as [|k]; [lia|].
  unfold bench. rewrite wbind_unfold. change (0 =? 0) with true.
  cbv beta iota. unfold wret at 1. cbv beta iota.
  cbn [for_acc seq]. do 4 rewrite wbind_unfold.
  unfold randn at 1. cbv beta iota.
  rewrite wbind_unfold. unfold time at 1. cbv beta iota.
  cbn [w_heap w_ticks w_draws w_picks].
  rewrite wbind_unfold. unfold run_tensor at 1.
  cbn [w_heap w_ticks w_draws w_picks].
  by rewrite (Hraise _ _ (randn_wf o w n 2) eq_refl).
Qed.
End BenchProperties.

(** ** The further properties on concrete inputs *)

Section MoreOnExamples.
Import F32 Examples MoreExamples BenchExamples.

#[local] Existing Instance ops32.
#[local] Existing Instance norm32.
#[local] Existing Instance seconds.

Lemma result_is_fresh_witness :
  In one_dim_vectorized variants
  /\ wf_tensor two_points (array [2; 2]) /\ t_shape (array [2; 2]) = [2; 2]
  /\ exists r new,
      one_dim_vectorized (array [2; 2]) two_points = Ok (r, two_points ++ new)
      /\ length two_points <= t_sid r /\ t_off r = 0
      /\ t_strides r = [Nat.max 2 1; 1]
      /\ forall t idx v idx',
           t_sid t < length two_points ->
           load (store (two_points ++ new) r idx v) t idx'
           = load two_points t idx'.
Proof.
  split; [apply in_variants_one_dim|].
  split; [apply array_wf; simpl; lia|]. split; [reflexivity|].
  apply (result_is_fresh one_dim_vectorized two_points (array [2; 2]) 2 2);
    [apply in_variants_one_dim | apply array_wf; simpl; lia | reflexivity].
Defined.

Lemma fully_vectorized_footprint_witness :
  wf_tensor two_points (array [2; 2]) /\ t_shape (array [2; 2]) = [2; 2]
  /\ exists r sq res,
      fully_vectorized (array [2; 2]) two_points
      = Ok (r, two_points ++ [sq; res])
      /\ length sq = 2 * 2 * 2 /\ length res = 2 * 2
      /\ t_sid r = length two_points + 1 /\ t_shape r = [2; 2]
      /\ to_list (two_points ++ [sq; res]) r = res.
Proof.
  split; [apply array_wf; simpl; lia|]. split; [reflexivity|].
  apply (fully_vectorized_footprint two_points (array [2; 2]) 2 2);
    [apply array_wf; simpl; lia | reflexivity].
Defined.

Lemma transposed_reads_two_points i k :
  i < 2 -> k < 2 ->
  load column_major transposed [i; k] = load two_points (array [2; 2]) [i; k].
Proof.
  intros Hi Hk. destruct i as [|[|i]], k as [|[|k]]; try lia; reflexivity.
Defined.

Lemma entries_follow_points_witness :
  In fully_vectorized variants
  /\ wf_tensor two_points (array [2; 2]) /\ t_shape (array [2; 2]) = [2; 2]
  /\ wf_tensor column_major transposed /\ t_shape transposed = [2; 2]
  /\ (forall i, i < 2 -> i < 2)
  /\ (forall i k, i < 2 -> k < 2 ->
        load column_major transposed [i; k]
        = load two_points (array [2; 2]) [i; k])
  /\ exists r h1 r' h1',
      fully_vectorized (array [2; 2]) two_points = Ok (r, h1)
      /\ fully_vectorized transposed column_major = Ok (r', h1')
      /\ forall i j, i < 2 -> j < 2 ->
           load h1' r' [i; j] = load h1 r [i; j].
Proof.
  split; [apply in_variants_fully|].
  split; [apply array_wf; simpl; lia|]. split; [reflexivity|].
  split; [split; simpl; lia|]. split; [reflexivity|].
  split; [auto|]. split; [apply transposed_reads_two_points|].
  apply (entries_follow_points fully_vectorized two_points (array [2; 2]) 2
           column_major transposed 2 (fun i => i));
    [apply in_variants_fully | apply array_wf; simpl; lia | reflexivity
    | split; simpl; lia | reflexivity | auto
    | apply transposed_reads_two_points].
Defined.

Lemma one_dim_vectorized_footprint_witness :
  wf_tensor two_points (array [2; 2]) /\ t_shape (array [2; 2]) = [2; 2]
  /\ exists r res temps,
      one_dim_vectorized (array [2; 2]) two_points
      = Ok (r, two_points ++ res :: temps)
      /\ t_sid r = length two_points /\ t_shape r = [2; 2]
      /\ length res = 2 * 2 /\ length temps = 2 * 2
      /\ to_list (two_points ++ res :: temps) r = res.
Proof.
  split; [apply array_wf; simpl; lia|]. split; [reflexivity|].
  apply (one_dim_vectorized_footprint two_points (array [2; 2]) 2 2);
    [apply array_wf; simpl; lia | reflexivity].
Defined.

Lemma naive_any_rank_witness :
  wf_tensor numbers (array [2]) /\ t_shape (array [2]) = [2]
  /\ exists r st,
      naive (array [2]) numbers = Ok (r, numbers ++ [st])
      /\ t_shape r = [2; 2]
      /\ forall i j, i < 2 -> j < 2 ->
           load (numbers ++ [st]) r [i; j]
           = exp32 (mul minus_quarter
                      (norm_once
                         ((fun idx =>
                             sub (load numbers (row_view (array [2]) i) idx)
                                 (load numbers (row_view (array [2]) j) idx))
                            <$> indices []))).
Proof.
  split; [apply array_wf; simpl; lia|]. split; [reflexivity|].
  apply (naive_any_rank exp32 norm_once numbers (array [2]) 2 []);
    [apply array_wf; simpl; lia | reflexivity].
Defined.

Lemma fully_vectorized_needs_rank_2_witness :
  length (t_shape (array [2])) <> 2
  /\ fully_vectorized (array [2]) numbers = Raise RuntimeError.
Proof.
  split; [simpl; lia|].
  apply (fully_vectorized_needs_rank_2 numbers (array [2])). simpl; lia.
Defined.

Lemma one_dim_vectorized_on_vector_witness :
  wf_tensor numbers (array [2]) /\ t_shape (array [2]) = [2]
  /\ one_dim_vectorized (array [2]) numbers = Raise IndexError.
Proof.
  split; [apply array_wf; simpl; lia|]. split; [reflexivity|].
  apply (one_dim_vectorized_on_vector numbers (array [2]) 2);
    [apply array_wf; simpl; lia | reflexivity | lia].
Defined.

Lemma nonfinite_diagonal_witness :
  exp32 S754_nan = S754_nan
  /\ (forall l, In S754_nan l -> norm_once l = S754_nan)
  /\ In naive variants
  /\ wf_tensor inf_point (array [1; 2]) /\ t_shape (array [1; 2]) = [1; 2]
  /\ is_finite (load inf_point (array [1; 2]) [0; 0]) = false
  /\ exists r h',
      naive (array [1; 2]) inf_point = Ok (r, h')
      /\ load h' r [0; 0] = S754_nan /\ load h' r [0; 0] <> one.
Proof.
  split; [reflexivity|]. split; [apply norm_once_ok|].
  split; [apply in_variants_naive|].
  split; [apply array_wf; simpl; lia|]. split; [reflexivity|].
  split; [reflexivity|].
  apply (nonfinite_diagonal exp32 norm_once naive inf_point (array [1; 2]) 1 0 0);
    [reflexivity | apply norm_once_ok | apply in_variants_naive
    | apply array_wf; simpl; lia | reflexivity
    | lia | lia | reflexivity].
Defined.

Lemma nan_row_and_column_witness :
  (forall l, In S754_nan l -> norm_once l = S754_nan)
  /\ In naive variants
  /\ wf_tensor nan_points (array [2; 2]) /\ t_shape (array [2; 2]) = [2; 2]
  /\ load nan_points (array [2; 2]) [0; 0] = S754_nan
  /\ exists r h',
      naive (array [2; 2]) nan_points = Ok (r, h')
      /\ forall j, j < 2 ->
           load h' r [0; j] = exp32 S754_nan
           /\ load h' r [j; 0] = exp32 S754_nan.
Proof.
  split; [apply norm_once_ok|]. split; [apply in_variants_naive|].
  split; [apply array_wf; simpl; lia|]. split; [reflexivity|].
  split; [reflexivity|].
  apply (nan_row_and_column exp32 norm_once naive nan_points (array [2; 2]) 2 0 0);
    [apply norm_once_ok | apply in_variants_naive
    | apply array_wf; simpl; lia | reflexivity
    | lia | lia | reflexivity].
Defined.

Lemma coincident_rows k :
  k < 2 ->
  load coincident (array [2; 2]) [0; k] = load coincident (array [2; 2]) [1; k]
  /\ is_finite (load coincident (array [2; 2]) [0; k]) = true.
Proof. intros Hk. destruct k as [|[|k]]; try lia; split; reflexivity. Defined.

Lemma coincident_points_affinity_one_witness :
  (forall s, exp32 (S754_zero s) = one)
  /\ norm_once [zero; zero] = zero
  /\ In naive variants
  /\ wf_tensor coincident (array [2; 2]) /\ t_shape (array [2; 2]) = [2; 2]
  /\ exists r h',
      naive (array [2; 2]) coincident = Ok (r, h')
      /\ load h' r [0; 1] = one /\ load h' r [1; 0] = one.
Proof.
  split; [reflexivity|]. split; [reflexivity|].
  split; [apply in_variants_naive|].
  split; [apply array_wf; simpl; lia|]. split; [reflexivity|].
  apply (coincident_points_affinity_one exp32 norm_once naive coincident
           (array [2; 2]) 2 0 1);
    [reflexivity | reflexivity | apply in_variants_naive
    | apply array_wf; simpl; lia
    | reflexivity | lia | lia
    | intros k Hk; apply (coincident_rows k Hk)
    | intros k Hk; apply (coincident_rows k Hk)].
Defined.

Lemma reflected_negates_two_points i k :
  i < 2 -> k < 2 ->
  load reflected (array [2; 2]) [i; k]
  = SFopp (load two_points (array [2; 2]) [i; k]).
Proof.
  intros Hi Hk. destruct i as [|[|i]], k as [|[|k]]; try lia; reflexivity.
Defined.

Lemma negation_invariance_witness :
  (forall l, norm_once (map SFabs l) = norm_once l)
  /\ In naive variants
  /\ wf_tensor two_points (array [2; 2]) /\ wf_tensor reflected (array [2; 2])
  /\ exists r h1 r' h1',
      naive (array [2; 2]) two_points = Ok (r, h1)
      /\ naive (array [2; 2]) reflected = Ok (r', h1')
      /\ forall i j, i < 2 -> j < 2 ->
           (load h1 r [i; j] <> S754_nan ->
            load h1' r' [i; j] = load h1 r [i; j])
           /\ (load h1 r [i; j] = S754_nan ->
               load h1' r' [i; j] = S754_nan).
Proof.
  split; [apply norm_once_abs|]. split; [apply in_variants_naive|].
  split; [apply array_wf; simpl; lia|].
  split; [apply array_wf; simpl; lia|].
  apply (negation_invariance exp32 norm_once naive two_points (array [2; 2])
           reflected (array [2; 2]) 2);
    [apply norm_once_abs | apply in_variants_naive
    | apply array_wf; simpl; lia | reflexivity
    | apply array_wf; simpl; lia | reflexivity
    | apply reflected_negates_two_points].
Defined.

(** A run of the harness: one warm-up run, then two sizes timed twice each.
    Every run takes one tick of the clock, so both means are 1.0; eight
    readings of the clock, one draw of np.random, and fifteen storages (an
    array and the two allocations of [fully_vectorized] per run). *)
Example run_bench :
  match bench ticking fully_vectorized [1; 2] 2 1 start with
  | Done (t, w) => Some (t, w_ticks w, w_picks w, length (w_heap w))
  | Failed _ => None
  end = Some ([of_nat64 1; of_nat64 1], 8, 1, 15).
Proof. vm_compute. reflexivity. Qed.

Lemma bench_timings_witness :
  returns_on_points fully_vectorized /\ 0 < 2
  /\ (1 = 0 \/ [1; 2] <> [])
  /\ exists t w',
      bench ticking fully_vectorized [1; 2] 2 1 start = Done (t, w')
      /\ length t = length [1; 2]
      /\ (forall k, k < length [1; 2] ->
            t !! k = Some (mean (map (elapsed ticking
                                       (w_ticks start + 2 * (k * 2)))
                                   (seq 0 2))))
      /\ w_ticks w' = w_ticks start + 2 * 2 * length [1; 2]
      /\ w_picks w' = w_picks start + 1.
Proof.
  split; [apply variants_return, in_variants_fully|]. split; [lia|].
  split; [by right|].
  apply (bench_timings ticking fully_vectorized [1; 2] 2 1 start);
    [apply variants_return, in_variants_fully | lia | by right].
Defined.

Lemma bench_of_variant_witness :
  In naive variants /\ 0 < 1 /\ (0 = 0 \/ [3] <> [])
  /\ exists t w',
      bench ticking naive [3] 1 0 start = Done (t, w')
      /\ length t = length [3].
Proof.
  split; [apply in_variants_naive|]. split; [lia|]. split; [by left|].
  apply (bench_of_variant ticking naive [3] 1 0 start);
    [apply in_variants_naive | lia | by left].
Defined.

Lemma Etude1_bench_of_variant_witness :
  In Etude1.one_dim_vectorized Etude1_variants /\ 0 < 1
  /\ exists w',
      Etude1_bench ticking Etude1.one_dim_vectorized [2; 3] 1 start
      = Done (timings ticking (w_ticks start) 1 (length [2; 3]), w')
      /\ length (timings ticking (w_ticks start) 1 (length [2; 3]))
         = length [2; 3]
      /\ w_ticks w' = w_ticks start + 2 * 1 * length [2; 3].
Proof.
  split; [right; left; reflexivity|]. split; [lia|].
  apply (Etude1_bench_of_variant ticking Etude1.one_dim_vectorized [2; 3] 1 start);
    [right; left; reflexivity | lia].
Defined.

Lemma bench_repeat_zero_witness :
  (0 = 0 \/ returns_on_points fully_vectorized)
  /\ bench ticking fully_vectorized [2] 0 0 start = Failed ZeroDivisionError
  /\ Etude1_bench ticking Etude1.naive [2] 0 start = Failed ZeroDivisionError.
Proof.
  split; [by left|].
  apply (bench_repeat_zero ticking fully_vectorized Etude1.naive 2 [] 0 start).
  by left.
Defined.

Lemma bench_empty_range_witness :
  0 < 3 /\ bench ticking fully_vectorized [] 2 3 start = Failed ValueError.
Proof.
  split; [lia|].
  apply (bench_empty_range ticking fully_vectorized Etude1.naive 2 3 start).
  lia.
Defined.

Lemma sized_call_raises h u :
  wf_tensor h u -> t_shape u = [2; 2] ->
  Etude1.one_dim_vectorized u 1 h = Raise RuntimeError.
Proof.
  intros Hwf Hs. apply (one_dim_shape_error h u 2 2 1 Hwf Hs); lia.
Defined.

Lemma bench_propagates_witness :
  (forall h u, wf_tensor h u -> t_shape u = [2; 2] ->
     Etude1.one_dim_vectorized u 1 h = Raise RuntimeError)
  /\ 0 < 3
  /\ bench ticking (fun u => Etude1.one_dim_vectorized u 1) [2; 5] 3 0 start
     = Failed (TensorError RuntimeError).
Proof.
  split; [apply sized_call_raises|]. split; [lia|].
  apply (bench_propagates ticking (fun u => Etude1.one_dim_vectorized u 1)
           RuntimeError 2 [5] 3 start);
    [apply sized_call_raises | lia].
Defined.
End MoreOnExamples.
